(** * RealTime-Chat-App: room coordination and messaging core

    A shallow embedding of
      - [src/app/api/[[...slugs]]/route.ts]  (the room and message handlers)
      - the request middleware                (the entry gate with the atomic
                                               admission script)
      - [src/app/room/[roomId]/page.tsx]      (the countdown of the room page)
    over a model of the Redis commands the first two files call.

    Every handler is written once, as a program over the Redis commands it
    awaits.  The same program is then given two meanings: [run] executes a
    whole request in one go (one request at a time), and [sched] interleaves
    a pool of requests command by command, which is how concurrent requests
    meet in the store. *)

From Stdlib Require Import ZArith Lia Ascii String.
From stdpp Require Import gmap strings list fin_maps pretty.

Local Open Scope Z_scope.

(** ** Data stored by the application *)

(** The hash written at [meta:<roomId>]. *)
Record Meta := mkMeta {
  connected : list string;
  createdAt : Z;
  type : string;
  users : list string;
}.

(** A chat message.  The broadcast form carries no token, the stored form
    carries the author's, and the listed form carries it for the author only:
    the field is optional. *)
Record Message := mkMessage {
  m_id : string;
  m_sender : string;
  m_text : string;
  m_timestamp : Z;
  m_roomId : string;
  m_token : option string;
}.

(** The credentials the authorisation layer hands to a handler. *)
Record Auth := mkAuth {
  roomId : string;
  token : string;
}.

(** Events published on a room's channel. *)
Inductive event :=
| ChatUserJoined (username : string)
| ChatUserLeft (username : option string)
| ChatMessage (m : Message)
| ChatDestroy (isDestroyed : bool).

(** ** The store *)

(** Redis values of the three types the application uses. *)
Inductive rvalue :=
| VHash (m : Meta)
| VList (l : list Message)
| VSet (s : gset string).

(** A key's value together with its expiry instant, if it has one.  Time is
    counted in whole seconds. *)
Record entry := mkEntry {
  value : rvalue;
  expire_at : option Z;
}.

(** The world a request acts on: the single Redis key space, the store's
    clock, and the events published so far as (channel, event) pairs, oldest
    first. *)
Record State := mkState {
  keys : gmap string entry;
  clock : Z;
  emitted : list (string * event);
}.

Definition ROOM_TTL_SECONDS : Z := 60 * 10.
Definition MAX_PRIVATE_USERS : Z := 2.

Definition meta_key (r : string) : string := "meta:" +:+ r.
Definition messages_key (r : string) : string := "messages:" +:+ r.
Definition connected_key (r : string) : string := "connected:" +:+ r.

(** A key whose expiry instant has been reached is gone, whether or not the
    store has reclaimed it yet. *)
Definition alive (now : Z) (e : entry) : bool :=
  match expire_at e with
  | None => true
  | Some t => now <? t
  end.

Definition lookup_key (s : State) (k : string) : option entry :=
  match keys s !! k with
  | Some e => if alive (clock s) e then Some e else None
  | None => None
  end.

(** What TTL reports: -2 for no such key, -1 for a key that never expires,
    the seconds left otherwise. *)
Definition ttl_of (s : State) (k : string) : Z :=
  match lookup_key s k with
  | None => -2
  | Some e =>
      match expire_at e with
      | None => -1
      | Some t => t - clock s
      end
  end.

Definition with_keys (s : State) (ks : gmap string entry) : State :=
  {| keys := ks; clock := clock s; emitted := emitted s |}.

Definition put_key (s : State) (k : string) (e : entry) : State :=
  with_keys s (<[k := e]> (keys s)).

Definition drop_key (s : State) (k : string) : State :=
  with_keys s (delete k (keys s)).

Definition publish (s : State) (channel : string) (ev : event) : State :=
  {| keys := keys s; clock := clock s; emitted := emitted s ++ [(channel, ev)] |}.

(** ** Programs over Redis commands *)

(** The commands the two source files issue, indexed by the type of their
    reply.  Replies the source never looks at are [unit]. *)
Variant cmd : Type → Type :=
| HSet (k : string) (m : Meta) : cmd unit
| HGetAll (k : string) : cmd (option Meta)
| Expire (k : string) (seconds : Z) : cmd unit
| Ttl (k : string) : cmd Z
| Exists (k : string) : cmd Z
| Del (k : string) : cmd unit
| RPush (k : string) (m : Message) : cmd unit
| LRange (k : string) : cmd (list Message)
| SIsMember (k : string) (x : string) : cmd Z
| EvalAdmit (k : string) (arg : string) : cmd Z
| Emit (channel : string) (ev : event) : cmd unit.

Inductive outcome (A : Type) : Type :=
| Returned (a : A)
| Thrown (msg : string).
Arguments Returned {A} a.
Arguments Thrown {A} msg.

(** A request: it returns, throws, or awaits one command and goes on with
    the reply. *)
Inductive prog (A : Type) : Type :=
| Ret (a : A)
| Throw (msg : string)
| Do {X : Type} (c : cmd X) (k : X → prog A).
Arguments Ret {A} a.
Arguments Throw {A} msg.
Arguments Do {A X} c k.

Fixpoint bind {A B : Type} (p : prog A) (f : A → prog B) : prog B :=
  match p with
  | Ret a => f a
  | Throw msg => Throw msg
  | Do c k => Do c (λ x, bind (k x) f)
  end.

Definition await {X : Type} (c : cmd X) : prog X := Do c Ret.

Declare Scope prog_scope.
Delimit Scope prog_scope with prog.
Notation "'let*' x ':=' p 'in' q" := (bind p (λ x, q))
  (at level 10, x name, p at level 100, q at level 200,
   format "'[v' 'let*'  x  ':='  p  'in' '/' q ']'") : prog_scope.
Notation "p ';;;' q" := (bind p (λ _, q))
  (at level 100, q at level 200, right associativity,
   format "'[v' p  ';;;' '/' q ']'") : prog_scope.

(** ** Meaning of the commands *)

Definition WRONGTYPE : string :=
  "WRONGTYPE Operation against a key holding the wrong kind of value".

(** SCARD and SADD as the admission script calls them. *)
Definition scard (s : State) (k : string) : outcome Z :=
  match lookup_key s k with
  | None => Returned 0
  | Some e =>
      match value e with
      | VSet st => Returned (Z.of_nat (size st))
      | _ => Thrown WRONGTYPE
      end
  end.

Definition sadd (s : State) (k : string) (x : string) : outcome unit * State :=
  match lookup_key s k with
  | None => (Returned tt, put_key s k (mkEntry (VSet {[x]}) None))
  | Some e =>
      match value e with
      | VSet st => (Returned tt, put_key s k (mkEntry (VSet ({[x]} ∪ st)) (expire_at e)))
      | _ => (Thrown WRONGTYPE, s)
      end
  end.

(** The script of the entry gate, run by the store as one indivisible step:
<<
    local count = redis.call('SCARD', KEYS[1])
    if count >= 2 then return 0 end
    redis.call('SADD', KEYS[1], ARGV[1])
    return 1
>> *)
Definition admission_script (s : State) (k : string) (arg : string)
  : outcome Z * State :=
  match scard s k with
  | Thrown msg => (Thrown msg, s)
  | Returned count =>
      if count >=? 2 then (Returned 0, s)
      else
        match sadd s k arg with
        | (Thrown msg, s') => (Thrown msg, s')
        | (Returned _, s') => (Returned 1, s')
        end
  end.

Definition exec {X : Type} (c : cmd X) (s : State) : outcome X * State :=
  match c in cmd X return outcome X * State with
  | HSet k m =>
      match lookup_key s k with
      | None => (Returned tt, put_key s k (mkEntry (VHash m) None))
      | Some e =>
          match value e with
          | VHash _ => (Returned tt, put_key s k (mkEntry (VHash m) (expire_at e)))
          | _ => (Thrown WRONGTYPE, s)
          end
      end
  | HGetAll k =>
      match lookup_key s k with
      | None => (Returned None, s)
      | Some e =>
          match value e with
          | VHash m => (Returned (Some m), s)
          | _ => (Thrown WRONGTYPE, s)
          end
      end
  | Expire k seconds =>
      match lookup_key s k with
      | None => (Returned tt, s)
      | Some e =>
          if seconds <=? 0 then (Returned tt, drop_key s k)
          else (Returned tt, put_key s k (mkEntry (value e) (Some (clock s + seconds))))
      end
  | Ttl k => (Returned (ttl_of s k), s)
  | Exists k =>
      match lookup_key s k with
      | None => (Returned 0, s)
      | Some _ => (Returned 1, s)
      end
  | Del k => (Returned tt, drop_key s k)
  | RPush k m =>
      match lookup_key s k with
      | None => (Returned tt, put_key s k (mkEntry (VList [m]) None))
      | Some e =>
          match value e with
          | VList l => (Returned tt, put_key s k (mkEntry (VList (l ++ [m])) (expire_at e)))
          | _ => (Thrown WRONGTYPE, s)
          end
      end
  | LRange k =>
      match lookup_key s k with
      | None => (Returned [], s)
      | Some e =>
          match value e with
          | VList l => (Returned l, s)
          | _ => (Thrown WRONGTYPE, s)
          end
      end
  | SIsMember k x =>
      match lookup_key s k with
      | None => (Returned 0, s)
      | Some e =>
          match value e with
          | VSet st => (Returned (if bool_decide (x ∈ st) then 1 else 0), s)
          | _ => (Thrown WRONGTYPE, s)
          end
      end
  | EvalAdmit k arg => admission_script s k arg
  | Emit channel ev => (Returned tt, publish s channel ev)
  end.

(** One request run from start to end with nothing in between. *)
Fixpoint run {A : Type} (p : prog A) (s : State) : outcome A * State :=
  match p with
  | Ret a => (Returned a, s)
  | Throw msg => (Thrown msg, s)
  | Do c k =>
      match exec c s with
      | (Returned x, s') => run (k x) s'
      | (Thrown msg, s') => (Thrown msg, s')
      end
  end.

(** Time passing between requests. *)
Definition tick (dt : Z) (s : State) : State :=
  {| keys := keys s; clock := clock s + dt; emitted := emitted s |}.

Definition empty_state : State :=
  {| keys := ∅; clock := 0; emitted := [] |}.

(** ** The handlers of [route.ts] *)

Local Open Scope prog_scope.

(** The replies of the handlers. *)
Record RoomReply := mkRoomReply {
  r_roomId : string;
  r_token : string;
  r_type : string;
}.

Inductive JoinReply :=
| JoinError (error : string)
| Joined (r : RoomReply).

Record Success := mkSuccess { success : bool }.

(** JavaScript's [Array.prototype.indexOf]: the first position holding [x],
    or -1. *)
Fixpoint indexOf_from (l : list string) (x : string) (i : Z) : Z :=
  match l with
  | [] => -1
  | y :: l' => if String.eqb y x then i else indexOf_from l' x (i + 1)
  end.

Definition indexOf (l : list string) (x : string) : Z := indexOf_from l x 0.

(** [arr[i]] for an integer [i]: [undefined] ([None]) outside the array. *)
Definition at_index {A : Type} (l : list A) (i : Z) : option A :=
  if i <? 0 then None else l !! Z.to_nat i.

(** [arr.filter((x, i) => f x i)]. *)
Fixpoint filter_from {A : Type} (f : A → Z → bool) (l : list A) (i : Z) : list A :=
  match l with
  | [] => []
  | x :: l' =>
      if f x i then x :: filter_from f l' (i + 1) else filter_from f l' (i + 1)
  end.

Definition filter_indexed {A : Type} (f : A → Z → bool) (l : list A) : list A :=
  filter_from f l 0.

(** POST /room/create.  [new_room] and [new_token] are the two [nanoid()]
    results and [now_ms] is [Date.now()]. *)
Definition create (new_room new_token : string) (now_ms : Z)
    (body_type body_username : string) : prog RoomReply :=
  await (HSet (meta_key new_room)
           {| connected := [new_token];
              createdAt := now_ms;
              type := body_type;
              users := [body_username] |}) ;;;
  await (Expire (meta_key new_room) ROOM_TTL_SECONDS) ;;;
  Ret (mkRoomReply new_room new_token body_type).

(** POST /room/join. *)
Definition join (new_token : string) (body_roomId body_username : string)
  : prog JoinReply :=
  let* meta := await (HGetAll (meta_key body_roomId)) in
  match meta with
  | None => Ret (JoinError "room-not-found")
  | Some meta =>
      if String.eqb (type meta) "private"
         && (Z.of_nat (length (users meta)) >=? MAX_PRIVATE_USERS)
      then Ret (JoinError "room-full")
      else
        let updatedUsers := users meta ++ [body_username] in
        await (HSet (meta_key body_roomId)
                 {| connected := connected meta ++ [new_token];
                    createdAt := createdAt meta;
                    type := type meta;
                    users := updatedUsers |}) ;;;
        await (Emit body_roomId (ChatUserJoined body_username)) ;;;
        Ret (Joined (mkRoomReply body_roomId new_token (type meta)))
  end.

(** GET /room/ttl. *)
Definition getTtl (auth : Auth) : prog Z :=
  let* ttl := await (Ttl (meta_key (roomId auth))) in
  Ret (if ttl >? 0 then ttl else 0).

(** GET /room/users. *)
Definition getUsers (auth : Auth) : prog (list string * string) :=
  let* meta := await (HGetAll (meta_key (roomId auth))) in
  Ret (match meta with
       | Some meta =>
           (users meta, if String.eqb (type meta) "" then "private" else type meta)
       | None => ([], "private")
       end).

(** DELETE /room/leave.  The two deletions of [Promise.all] touch different
    keys, so their order does not matter. *)
Definition leave (auth : Auth) : prog Success :=
  let* meta := await (HGetAll (meta_key (roomId auth))) in
  match meta with
  | None => Ret (mkSuccess false)
  | Some meta =>
      let tokenIndex := indexOf (connected meta) (token auth) in
      let username := at_index (users meta) tokenIndex in
      let updatedUsers :=
        filter_indexed (λ _ i, negb (i =? tokenIndex)) (users meta) in
      let updatedConnected :=
        List.filter (λ t, negb (String.eqb t (token auth))) (connected meta) in
      if Z.of_nat (length updatedUsers) =? 0 then
        await (Del (meta_key (roomId auth))) ;;;
        await (Del (messages_key (roomId auth))) ;;;
        await (Emit (roomId auth) (ChatDestroy true)) ;;;
        Ret (mkSuccess true)
      else
        await (HSet (meta_key (roomId auth))
                 {| connected := updatedConnected;
                    createdAt := createdAt meta;
                    type := type meta;
                    users := updatedUsers |}) ;;;
        await (Emit (roomId auth) (ChatUserLeft username)) ;;;
        Ret (mkSuccess true)
  end.

(** DELETE /room. *)
Definition destroy (auth : Auth) : prog Success :=
  let* meta := await (HGetAll (meta_key (roomId auth))) in
  if match meta with
     | Some meta => String.eqb (type meta) "group"
     | None => false
     end
  then Throw "Cannot manually destroy group rooms"
  else
    await (Emit (roomId auth) (ChatDestroy true)) ;;;
    await (Del (meta_key (roomId auth))) ;;;
    await (Del (messages_key (roomId auth))) ;;;
    Ret (mkSuccess true).

(** POST /messages.  [new_id] is [nanoid()], [now_ms] is [Date.now()]. *)
Definition postMessage (new_id : string) (now_ms : Z)
    (body_sender body_text : string) (auth : Auth) : prog unit :=
  let* roomExists := await (Exists (meta_key (roomId auth))) in
  if roomExists =? 0 then Throw "Room does not exist"
  else
    let message :=
      {| m_id := new_id;
         m_sender := body_sender;
         m_text := body_text;
         m_timestamp := now_ms;
         m_roomId := roomId auth;
         m_token := None |} in
    await (RPush (messages_key (roomId auth))
             {| m_id := m_id message;
                m_sender := m_sender message;
                m_text := m_text message;
                m_timestamp := m_timestamp message;
                m_roomId := m_roomId message;
                m_token := Some (token auth) |}) ;;;
    await (Emit (roomId auth) (ChatMessage message)) ;;;
    let* remaining := await (Ttl (meta_key (roomId auth))) in
    await (Expire (messages_key (roomId auth)) remaining).

(** [m.token === auth.token ? auth.token : undefined] *)
Definition visible_token (auth : Auth) (m : Message) : option string :=
  match m_token m with
  | Some t => if String.eqb t (token auth) then Some (token auth) else None
  | None => None
  end.

(** GET /messages. *)
Definition listMessages (auth : Auth) : prog (list Message) :=
  let* messages := await (LRange (messages_key (roomId auth))) in
  Ret (map (λ m,
              {| m_id := m_id m;
                 m_sender := m_sender m;
                 m_text := m_text m;
                 m_timestamp := m_timestamp m;
                 m_roomId := m_roomId m;
                 m_token := visible_token auth m |})
           messages).

(** ** The entry gate (middleware) *)

Inductive Response :=
| Redirect (url : string)
| Next (set_cookie : option string).

Definition lower (c : ascii) : ascii :=
  let n := N_of_ascii c in
  if ((65 <=? n) && (n <=? 90))%N then ascii_of_N (n + 32) else c.

Fixpoint starts_with_ci (pat s : string) : bool :=
  match pat, s with
  | EmptyString, _ => true
  | String a pat', String b s' =>
      Ascii.eqb (lower a) (lower b) && starts_with_ci pat' s'
  | String _ _, EmptyString => false
  end.

(** [/pat/i.test(s)] for a pattern of plain letters. *)
Fixpoint test_ci (pat s : string) : bool :=
  starts_with_ci pat s
  || match s with
     | EmptyString => false
     | String _ s' => test_ci pat s'
     end.

Definition botPatterns : list string :=
  ["bot"; "crawler"; "spider"; "whatsapp"; "telegram"; "slack"; "discord";
   "twitter"; "facebook"; "linkedin"; "preview"; "prefetch"]%string.

Definition isBot (userAgent : string) : bool :=
  existsb (λ pattern, test_ci pattern userAgent) botPatterns.

Fixpoint has_slash (s : string) : bool :=
  match s with
  | EmptyString => false
  | String c s' => Ascii.eqb c "/" || has_slash s'
  end.

(** [pathname.match(/^\/room\/([^/]+)$/)], giving the captured group. *)
Definition roomMatch (pathname : string) : option string :=
  match pathname with
  | String "/" (String "r" (String "o" (String "o" (String "m" (String "/" rest))))) =>
      match rest with
      | EmptyString => None
      | _ => if has_slash rest then None else Some rest
      end
  | _ => None
  end.

(** The middleware.  [new_token] is its [nanoid()], [userAgent] and [cookie]
    are the request's [user-agent] header and [x-auth-token] cookie. *)
Definition middleware (new_token : string) (pathname : string)
    (userAgent cookie : option string) : prog Response :=
  match roomMatch pathname with
  | None => Ret (Redirect "/")
  | Some roomId =>
      let* roomExists := await (Exists (meta_key roomId)) in
      if roomExists =? 0 then Ret (Redirect "/?error=room-not-found")
      else if isBot (default ""%string userAgent) then Ret (Next None)
      else
        let* isMember :=
          match cookie with
          | Some (String c rest as existingToken) =>
              await (SIsMember (connected_key roomId) existingToken)
          | _ => Ret 0
          end in
        if negb (isMember =? 0) then Ret (Next None)
        else
          let* added := await (EvalAdmit (connected_key roomId) new_token) in
          if added =? 0 then Ret (Redirect "/?error=room-full")
          else
            let* ttl := await (Ttl (meta_key roomId)) in
            (if ttl >? 0 then await (Expire (connected_key roomId) ttl)
             else Ret tt) ;;;
            Ret (Next (Some new_token))
  end.

(** ** Concurrent requests *)

(** The tokens a command admitted: the admission script's, when it replied 1. *)
Definition admitted_by {X : Type} (c : cmd X) : outcome X → list (string * string) :=
  match c in cmd X return outcome X → list (string * string) with
  | EvalAdmit k arg =>
      λ r, match r with
           | Returned n => if n =? 1 then [(k, arg)] else []
           | Thrown _ => []
           end
  | _ => λ _, []
  end.

(** A request advances by the one command it is waiting on. *)
Definition step_thread {A : Type} (p : prog A) (s : State)
  : prog A * State * list (string * string) :=
  match p with
  | Do c k =>
      let r := exec c s in
      (match r.1 with
       | Returned x => k x
       | Thrown msg => Throw msg
       end, r.2, admitted_by c r.1)
  | _ => (p, s, [])
  end.

(** What the scheduler may do next: let request [i] of the pool issue its
    next command, or let [dt] seconds pass. *)
Inductive action :=
| Step (i : nat)
| Tick (dt : nat).

Record System (A : Type) := mkSystem {
  pool : list (prog A);
  store : State;
  admitted : list (string * string);
}.
Arguments mkSystem {A} pool store admitted.
Arguments pool {A} _.
Arguments store {A} _.
Arguments admitted {A} _.

Definition act {A : Type} (sys : System A) (a : action) : System A :=
  match a with
  | Tick dt => mkSystem (pool sys) (tick (Z.of_nat dt) (store sys)) (admitted sys)
  | Step i =>
      match pool sys !! i with
      | None => sys
      | Some p =>
          let r := step_thread p (store sys) in
          mkSystem (<[i := r.1.1]> (pool sys)) r.1.2 (admitted sys ++ r.2)
      end
  end.

(** An interleaving is a list of actions, carried out in order. *)
Definition sched {A : Type} (acts : list action) (sys : System A) : System A :=
  fold_left act acts sys.

Definition is_step (a : action) : Prop :=
  match a with
  | Step _ => True
  | Tick _ => False
  end.

(** ** Vocabulary of the statements *)

(** The state a leave or a destroy ends in when it removes the room. *)
Definition room_removed (s : State) (r : string) : State :=
  {| keys := delete (messages_key r) (delete (meta_key r) (keys s));
     clock := clock s;
     emitted := emitted s ++ [(r, ChatDestroy true)] |}.

(** The message as [postMessage] builds it, and as it stores it. *)
Definition built_message (new_id : string) (now_ms : Z) (sender text : string)
    (auth : Auth) (tok : option string) : Message :=
  {| m_id := new_id; m_sender := sender; m_text := text;
     m_timestamp := now_ms; m_roomId := roomId auth; m_token := tok |}.

(** The list held at [messages:<r>]; a missing key reads as the empty list. *)
Definition stored_log (st : State) (r : string) : list Message :=
  match lookup_key st (messages_key r) with
  | Some e => match value e with VList l => l | _ => [] end
  | None => []
  end.

Definition holds_list (st : State) (k : string) : Prop :=
  match lookup_key st k with
  | Some e => match value e with VList _ => True | _ => False end
  | None => True
  end.

(** A listed message: the stored one with its token shown to its author only. *)
Definition listed (auth : Auth) (m : Message) : Message :=
  {| m_id := m_id m; m_sender := m_sender m; m_text := m_text m;
     m_timestamp := m_timestamp m; m_roomId := m_roomId m;
     m_token := visible_token auth m |}.

(** ** Programs, requests and states as the proofs speak of them *)

(** Every command a program may come to await satisfies [P]. *)
Fixpoint all_cmds (P : ∀ X, cmd X → Prop) {A : Type} (p : prog A) : Prop :=
  match p with
  | Ret _ => True
  | Throw _ => True
  | Do c k => P _ c ∧ ∀ x, all_cmds P (k x)
  end.

(** The requests of the application: the eight routes and the page gate,
    with the values that [nanoid()] and [Date.now()] give them. *)
Inductive request :=
| ReqCreate (new_room new_token : string) (now_ms : Z) (body_type body_username : string)
| ReqJoin (new_token body_roomId body_username : string)
| ReqTtl (auth : Auth)
| ReqUsers (auth : Auth)
| ReqLeave (auth : Auth)
| ReqDestroy (auth : Auth)
| ReqPost (new_id : string) (now_ms : Z) (body_sender body_text : string) (auth : Auth)
| ReqList (auth : Auth)
| ReqPage (new_token pathname : string) (userAgent cookie : option string).

Definition serve (q : request) (s : State) : State :=
  match q with
  | ReqCreate a b c d e => (run (create a b c d e) s).2
  | ReqJoin a b c => (run (join a b c) s).2
  | ReqTtl auth => (run (getTtl auth) s).2
  | ReqUsers auth => (run (getUsers auth) s).2
  | ReqLeave auth => (run (leave auth) s).2
  | ReqDestroy auth => (run (destroy auth) s).2
  | ReqPost a b c d auth => (run (postMessage a b c d auth) s).2
  | ReqList auth => (run (listMessages auth) s).2
  | ReqPage a b c d => (run (middleware a b c d) s).2
  end.

(** The states reached from the empty store by requests served one after
    the other, with time passing in between. *)
Inductive reachable : State → Prop :=
| reach_empty : reachable empty_state
| reach_serve q s : reachable s → reachable (serve q s)
| reach_tick dt s : 0 <= dt → reachable s → reachable (tick dt s).

(** Each kind of value lives under its own key prefix, and every room
    record expires, no later than [ROOM_TTL_SECONDS] from now. *)
Definition well_kept (s : State) (k : string) (e : entry) : Prop :=
  match value e with
  | VHash _ =>
      (∃ r, k = meta_key r)
      ∧ ∃ t, expire_at e = Some t ∧ t <= clock s + ROOM_TTL_SECONDS
  | VList _ => ∃ r, k = messages_key r
  | VSet _ => ∃ r, k = connected_key r
  end.

Definition rooms_expire (s : State) : Prop :=
  ∀ k e, keys s !! k = Some e → well_kept s k e.

(** Commands that keep to their key prefix and can neither create a room
    record nor move the expiry of one. *)
Definition spares_rooms (X : Type) (c : cmd X) : Prop :=
  match c with
  | HSet _ _ => False
  | Expire k _ => ∃ r, k = messages_key r ∨ k = connected_key r
  | RPush k _ => ∃ r, k = messages_key r
  | EvalAdmit k _ => ∃ r, k = connected_key r
  | _ => True
  end.

(** The set held at a key; a missing key reads as the empty set. *)
Definition set_at (s : State) (k : string) : gset string :=
  match lookup_key s k with
  | Some e => match value e with VSet st => st | _ => ∅ end
  | None => ∅
  end.

(** No set in the store, live or not, holds more than two tokens. *)
Definition sets_bounded (s : State) : Prop :=
  ∀ k e st, keys s !! k = Some e → value e = VSet st → (size st ≤ 2)%nat.

(** Commands that never take key [k] away: no deletion of it, and no
    expiry of it that would remove it at once. *)
Definition quiet (k : string) (X : Type) (c : cmd X) : Prop :=
  match c with
  | Del k' => k' ≠ k
  | Expire k' seconds => k' ≠ k ∨ 0 < seconds
  | _ => True
  end.

(** The admissions to the set at [k] that the log records, oldest first,
    and the tokens they admitted. *)
Definition admissions (k : string) (log : list (string * string)) : list string :=
  omap (λ kt, if decide (kt.1 = k) then Some kt.2 else None) log.

Definition tokens_admitted (k : string) (log : list (string * string)) : gset string :=
  list_to_set (admissions k log).

(** The token a command submits to the admission script, if it is one. *)
Definition eval_token {X : Type} (c : cmd X) : option string :=
  match c with
  | EvalAdmit _ arg => Some arg
  | _ => None
  end.

Definition no_eval (X : Type) (c : cmd X) : Prop := eval_token c = None.

(** A program that runs the admission script at most once, and then with
    token [tok]. *)
Fixpoint one_shot {A : Type} (tok : string) (p : prog A) : Prop :=
  match p with
  | Do c k =>
      match eval_token c with
      | Some arg => arg = tok ∧ ∀ x, all_cmds no_eval (k x)
      | None => ∀ x, one_shot tok (k x)
      end
  | _ => True
  end.

(** What holds of a pool whose request [i] carries the token [toks !! i],
    all tokens being different. *)
Definition fresh_ok {A : Type} (toks : list string) (sys : System A) : Prop :=
  (∀ i p, pool sys !! i = Some p →
     ∃ tok, toks !! i = Some tok
            ∧ one_shot tok p
            ∧ (tok ∈ (admitted sys).*2 → all_cmds no_eval p))
  ∧ NoDup (admitted sys).*2.

(** A page request as the middleware sees it. *)
Record PageRequest := mkPageRequest {
  page_token : string;
  page_pathname : string;
  page_userAgent : option string;
  page_cookie : option string;
}.

Definition gate (q : PageRequest) : prog Response :=
  middleware (page_token q) (page_pathname q) (page_userAgent q) (page_cookie q).

(** What holds of a pool of requests that never take key [k] away. *)
Definition gate_ok {A : Type} (k : string) (sys : System A) : Prop :=
  Forall (all_cmds (quiet k)) (pool sys)
  ∧ (size (set_at (store sys) k) ≤ 2)%nat
  ∧ ∀ tok, (k, tok) ∈ admitted sys → tok ∈ set_at (store sys) k.

(** ** Sample states *)

Definition room_one : State :=
  (run (create "R" "T1" 1000 "private" "alice") empty_state).2.

Definition room_two : State := (run (join "T2" "R" "bob") room_one).2.

Definition group_room : State :=
  (run (create "G" "T1" 1000 "group" "alice") empty_state).2.

Definition meta_one : Meta :=
  {| connected := ["T1"]; createdAt := 1000; type := "private"; users := ["alice"] |}.

Definition meta_two : Meta :=
  {| connected := ["T1"; "T2"]; createdAt := 1000; type := "private";
     users := ["alice"; "bob"] |}.

Definition meta_group : Meta :=
  {| connected := ["T1"]; createdAt := 1000; type := "group"; users := ["alice"] |}.

Definition room_chat : State :=
  (run (postMessage "M2" 7 "bob" "hello" (mkAuth "R" "T2"))
     (run (postMessage "M1" 5 "alice" "hi" (mkAuth "R" "T1")) room_two).2).2.

(** A visitor admitted by the gate: the token is in the room's set, not in
    the metadata's list. *)
Definition gated_room : State :=
  (run (middleware "K1" "/room/R" (Some "Mozilla/5.0") None) room_one).2.

Definition room_later : State := tick 100 room_two.

(** Three visitors open the page of a room at once. *)
Definition three_visitors : list PageRequest :=
  [ mkPageRequest "K1" "/room/R" (Some "Mozilla/5.0") None;
    mkPageRequest "K2" "/room/R" (Some "Mozilla/5.0") None;
    mkPageRequest "K3" "/room/R" (Some "Mozilla/5.0") None ].

Definition rush : list action :=
  [ Step 0; Step 1; Step 2; Step 2; Step 1; Step 0;
    Step 2; Step 1; Step 0; Step 1; Step 2; Step 0 ]%nat.

(** ** The room page: the countdown display *)

Fixpoint repeat_string (n : nat) (pad : string) : string :=
  match n with
  | O => ""
  | S n' => pad +:+ repeat_string n' pad
  end.

(** [s.padStart(targetLength, padString)]: [s] itself when it is long
    enough, and otherwise [s] behind as much of the repeated pad as fills the
    gap. *)
Definition padStart (targetLength : nat) (padString s : string) : string :=
  let len := String.length s in
  if (targetLength <=? len)%nat then s
  else
    String.substring 0 (targetLength - len)
      (repeat_string (targetLength - len) padString) +:+ s.

(** [formatTimeRemaining] on a whole number of seconds: [Math.floor] of the
    quotient is the floor division, [%] is the remainder that takes the sign
    of the dividend, and a whole number prints in decimal. *)
Definition formatTimeRemaining (seconds : Z) : string :=
  let mins := seconds / 60 in
  let secs := Z.rem seconds 60 in
  pretty mins +:+ ":" +:+ padStart 2 "0" (pretty secs).

(** The update the one-second timer applies to the time remaining:
<<
    (prev) => { if (prev === null || prev <= 1) { ...; return 0; } return prev - 1; }
>> *)
Definition countdown_tick (prev : option Z) : Z :=
  match prev with
  | None => 0
  | Some prev => if prev <=? 1 then 0 else prev - 1
  end.

(** The time remaining after [k] timer ticks. *)
Fixpoint countdown (k : nat) (timeRemaining : option Z) : option Z :=
  match k with
  | O => timeRemaining
  | S k' => countdown k' (Some (countdown_tick timeRemaining))
  end.

(** The character of a decimal digit. *)
Definition digit (d : Z) : ascii := ascii_of_N (48 + Z.to_N d).

Definition MAX_SAFE_INTEGER : Z := 9007199254740991.

(** The requests that are not a [create] for room [r]. *)
Definition not_create_of (r : string) (q : request) : Prop :=
  match q with
  | ReqCreate new_room _ _ _ _ => new_room ≠ r
  | _ => True
  end.

(** The record of room [r], if there is one, expires at [ex]. *)
Definition expires_at (r : string) (ex : option Z) (s : State) : Prop :=
  ∀ e, lookup_key s (meta_key r) = Some e → expire_at e = ex.

(** [s] with every letter in lower case. *)
Fixpoint lower_string (s : string) : string :=
  match s with
  | EmptyString => EmptyString
  | String c s' => String (lower c) (lower_string s')
  end.

(** An event that carries no session token. *)
Definition no_token_event (ev : event) : Prop :=
  match ev with
  | ChatMessage m => m_token m = None
  | _ => True
  end.

Definition emits_clean (X : Type) (c : cmd X) : Prop :=
  match c with
  | Emit _ ev => no_token_event ev
  | _ => True
  end.

Definition events_clean (s : State) : Prop :=
  ∀ channel ev, (channel, ev) ∈ emitted s → no_token_event ev.

(** Every key of the store expires, no later than [ROOM_TTL_SECONDS] from
    now. *)
Definition all_expire (s : State) : Prop :=
  ∀ k e, keys s !! k = Some e →
    ∃ t, expire_at e = Some t ∧ t <= clock s + ROOM_TTL_SECONDS.

(** Commands that write no value and set no expiry. *)
Definition only_removes (X : Type) (c : cmd X) : Prop :=
  match c with
  | HSet _ _ | Expire _ _ | RPush _ _ | EvalAdmit _ _ => False
  | _ => True
  end.

(** ** The whole application, request by request *)

(** The replies of the nine kinds of request. *)
Inductive Reply :=
| RoomCreated (r : RoomReply)
| JoinReplied (r : JoinReply)
| TtlReplied (ttl : Z)
| UsersReplied (names : list string) (kind : string)
| Succeeded (r : Success)
| Posted
| Listed (messages : list Message)
| Paged (r : Response).

(** The program that serves a request. *)
Definition handle (q : request) : prog Reply :=
  match q with
  | ReqCreate a b c d e => let* r := create a b c d e in Ret (RoomCreated r)
  | ReqJoin a b c => let* r := join a b c in Ret (JoinReplied r)
  | ReqTtl auth => let* r := getTtl auth in Ret (TtlReplied r)
  | ReqUsers auth => let* r := getUsers auth in Ret (UsersReplied r.1 r.2)
  | ReqLeave auth => let* r := leave auth in Ret (Succeeded r)
  | ReqDestroy auth => let* r := destroy auth in Ret (Succeeded r)
  | ReqPost a b c d auth => postMessage a b c d auth ;;; Ret Posted
  | ReqList auth => let* r := listMessages auth in Ret (Listed r)
  | ReqPage a b c d => let* r := middleware a b c d in Ret (Paged r)
  end.

(** A private room lists two names at most. *)
Definition private_bound (m : Meta) : Prop :=
  type m = "private"%string → (length (users m) ≤ 2)%nat.

(** Every hash of the store, live or not, satisfies [Q]. *)
Definition metas_ok (Q : Meta → Prop) (s : State) : Prop :=
  ∀ k e m, keys s !! k = Some e → value e = VHash m → Q m.

(** What a command writes satisfies [Q]; what it read did, when the store
    was [metas_ok]. *)
Definition writes_ok (Q : Meta → Prop) {X : Type} (c : cmd X) : Prop :=
  match c with
  | HSet _ m => Q m
  | _ => True
  end.

Definition reply_ok (Q : Meta → Prop) {X : Type} (c : cmd X) : X → Prop :=
  match c in cmd X return X → Prop with
  | HGetAll _ => λ r, ∀ m, r = Some m → Q m
  | _ => λ _, True
  end.

(** A program that writes only hashes satisfying [Q], as long as the
    hashes it reads do. *)
Fixpoint keeps (Q : Meta → Prop) {A : Type} (p : prog A) : Prop :=
  match p with
  | Do c k => writes_ok Q c ∧ ∀ x, reply_ok Q c x → keeps Q (k x)
  | _ => True
  end.

Definition full_group_room : State :=
  serve (ReqPage "K2" "/room/G" (Some "Mozilla/5.0") None)
    (serve (ReqPage "K1" "/room/G" (Some "Mozilla/5.0") None) group_room).

Definition revived_room : State :=
  store (sched [Step 0; Tick 600; Step 0; Step 0]%nat
           (mkSystem [handle (ReqJoin "T2" "R" "bob")] room_one [])).

(** Commands that set no expiry on key [k]. *)
Definition no_expire_on (k : string) (X : Type) (c : cmd X) : Prop :=
  match c with
  | Expire k' _ => k' ≠ k
  | _ => True
  end.

(** The record of room [r], if there is one, expires at [ex] or never. *)
Definition expires_at_or_never (r : string) (ex : option Z) (s : State) : Prop :=
  ∀ e, lookup_key s (meta_key r) = Some e → expire_at e = ex ∨ expire_at e = None.

(** Bob's join has read the record of the room when alice destroys it, and
    writes afterwards. *)
Definition raced_room : State :=
  store (sched [Step 0; Step 1; Step 1; Step 1; Step 1; Step 0; Step 0]%nat
           (mkSystem [handle (ReqJoin "T2" "R" "bob");
                      handle (ReqDestroy (mkAuth "R" "T1"))] room_one [])).

(** * Properties *)

(** ** Keys of different families never coincide *)

Lemma meta_messages_ne r r' : meta_key r ≠ messages_key r'.
Proof. intros H. cbv [meta_key messages_key String.app append] in H. congruence. Qed.

Lemma meta_connected_ne r r' : meta_key r ≠ connected_key r'.
Proof. intros H. cbv [meta_key connected_key String.app append] in H. congruence. Qed.

Lemma messages_connected_ne r r' : messages_key r ≠ connected_key r'.
Proof. intros H. cbv [messages_key connected_key String.app append] in H. congruence. Qed.

(** ** Reading the store after a write *)

Lemma lookup_put_eq s k e :
  alive (clock s) e = true → lookup_key (put_key s k e) k = Some e.
Proof.
  intros Ha. unfold lookup_key, put_key. simpl.
  rewrite lookup_insert_eq. by rewrite Ha.
Qed.

Lemma lookup_put_ne s k k' e :
  k ≠ k' → lookup_key (put_key s k e) k' = lookup_key s k'.
Proof.
  intros Hne. unfold lookup_key, put_key. simpl.
  by rewrite lookup_insert_ne.
Qed.

Lemma lookup_drop_eq s k : lookup_key (drop_key s k) k = None.
Proof. unfold lookup_key, drop_key. simpl. by rewrite lookup_delete_eq. Qed.

Lemma lookup_drop_ne s k k' :
  k ≠ k' → lookup_key (drop_key s k) k' = lookup_key s k'.
Proof.
  intros Hne. unfold lookup_key, drop_key. simpl.
  by rewrite lookup_delete_ne.
Qed.

Lemma lookup_key_alive s k e : lookup_key s k = Some e → alive (clock s) e = true.
Proof.
  unfold lookup_key. destruct (keys s !! k) as [e'|]; [|done].
  destruct (alive (clock s) e') eqn:Ha; [|done]. by intros [= ->].
Qed.

Lemma lookup_key_raw s k e : lookup_key s k = Some e → keys s !! k = Some e.
Proof.
  unfold lookup_key. destruct (keys s !! k) as [e'|]; [|done].
  destruct (alive (clock s) e'); [|done]. by intros [= ->].
Qed.

Lemma lookup_publish s channel ev k :
  lookup_key (publish s channel ev) k = lookup_key s k.
Proof. done. Qed.

Lemma ttl_put_ne s k k' e : k ≠ k' → ttl_of (put_key s k e) k' = ttl_of s k'.
Proof. intros Hne. unfold ttl_of. by rewrite lookup_put_ne. Qed.

Lemma ttl_publish s channel ev k : ttl_of (publish s channel ev) k = ttl_of s k.
Proof. done. Qed.

Lemma ttl_of_expiring s k e t :
  lookup_key s k = Some e → expire_at e = Some t →
  ttl_of s k = t - clock s ∧ 0 < t - clock s.
Proof.
  intros H Hexp. unfold ttl_of. rewrite H, Hexp. split; [done|].
  apply lookup_key_alive in H. unfold alive in H. rewrite Hexp in H.
  apply Z.ltb_lt in H. lia.
Qed.

#[local] Arguments put_key : simpl never.
#[local] Arguments drop_key : simpl never.
#[local] Arguments publish : simpl never.
#[local] Arguments lookup_key : simpl never.
#[local] Arguments ttl_of : simpl never.

Lemma same_meta m :
  {| connected := connected m; createdAt := createdAt m;
     type := type m; users := users m |} = m.
Proof. by destruct m. Qed.

Lemma same_entry e : mkEntry (value e) (expire_at e) = e.
Proof. by destruct e. Qed.

(** ** JavaScript array helpers *)

Lemma indexOf_from_absent l x i : x ∉ l → indexOf_from l x i = -1.
Proof.
  revert i. induction l as [|y l IH]; intros i Hx; [done|].
  simpl. apply not_elem_of_cons in Hx as [Hne Hx].
  destruct (String.eqb_spec y x); [congruence|]. by apply IH.
Qed.

Lemma filter_from_keep_all {A} (f : A → Z → bool) (l : list A) i :
  (∀ x j, i <= j → f x j = true) → filter_from f l i = l.
Proof.
  revert i. induction l as [|x l IH]; intros i Hf; [done|].
  simpl. rewrite Hf by lia. f_equal. apply IH. intros y j Hj. apply Hf. lia.
Qed.

Lemma filter_keep_absent (l : list string) x :
  x ∉ l → List.filter (λ t, negb (String.eqb t x)) l = l.
Proof.
  induction l as [|y l IH]; intros Hx; [done|].
  apply not_elem_of_cons in Hx as [Hne Hx]. simpl.
  destruct (String.eqb_spec y x); [congruence|]. simpl. f_equal. by apply IH.
Qed.

(** ** One request at a time: the room handlers *)

Section Handlers.

Variable s : State.

Lemma room_removed_meta r : lookup_key (room_removed s r) (meta_key r) = None.
Proof.
  unfold lookup_key, room_removed. simpl.
  rewrite lookup_delete_ne by (intros H; by eapply meta_messages_ne).
  by rewrite lookup_delete_eq.
Qed.

Lemma room_removed_messages r : lookup_key (room_removed s r) (messages_key r) = None.
Proof. unfold lookup_key, room_removed. simpl. by rewrite lookup_delete_eq. Qed.

Lemma leave_absent auth :
  lookup_key s (meta_key (roomId auth)) = None →
  run (leave auth) s = (Returned (mkSuccess false), s).
Proof. intros H. unfold leave. simpl. by rewrite H. Qed.

Lemma join_absent new_token r name :
  lookup_key s (meta_key r) = None →
  run (join new_token r name) s = (Returned (JoinError "room-not-found"), s).
Proof. intros H. unfold join. simpl. by rewrite H. Qed.

Lemma join_full new_token r name e m :
  lookup_key s (meta_key r) = Some e → value e = VHash m →
  type m = "private"%string → (2 ≤ length (users m))%nat →
  run (join new_token r name) s = (Returned (JoinError "room-full"), s).
Proof.
  intros H Hv Ht Hl. unfold join. simpl. rewrite H, Hv. simpl. rewrite Ht. simpl.
  unfold MAX_PRIVATE_USERS. rewrite Z.geb_leb.
  destruct (Z.leb_spec 2 (Z.of_nat (length (users m)))); [done|lia].
Qed.

Lemma join_admits new_token r name e m :
  lookup_key s (meta_key r) = Some e → value e = VHash m →
  ¬ (type m = "private"%string ∧ (2 ≤ length (users m))%nat) →
  run (join new_token r name) s =
    (Returned (Joined (mkRoomReply r new_token (type m))),
     {| keys :=
          <[meta_key r :=
              mkEntry (VHash {| connected := connected m ++ [new_token];
                                createdAt := createdAt m;
                                type := type m;
                                users := users m ++ [name] |})
                      (expire_at e)]> (keys s);
        clock := clock s;
        emitted := emitted s ++ [(r, ChatUserJoined name)] |}).
Proof.
  intros H Hv Hnot. unfold join. simpl. rewrite H, Hv. simpl.
  assert (String.eqb (type m) "private"
          && (Z.of_nat (length (users m)) >=? MAX_PRIVATE_USERS) = false) as ->.
  { apply andb_false_iff. unfold MAX_PRIVATE_USERS. rewrite Z.geb_leb.
    destruct (String.eqb_spec (type m) "private"); [right|by left].
    apply Z.leb_gt. destruct (decide (2 ≤ length (users m))%nat); [|lia].
    exfalso. by apply Hnot. }
  simpl. by rewrite H, Hv.
Qed.

Lemma leave_last auth e m :
  lookup_key s (meta_key (roomId auth)) = Some e → value e = VHash m →
  filter_indexed (λ _ i, negb (i =? indexOf (connected m) (token auth))) (users m) = [] →
  run (leave auth) s = (Returned (mkSuccess true), room_removed s (roomId auth)).
Proof.
  intros H Hv Hempty. unfold leave. simpl. rewrite H, Hv. simpl.
  rewrite Hempty. done.
Qed.

Lemma leave_stranger auth e m :
  lookup_key s (meta_key (roomId auth)) = Some e → value e = VHash m →
  users m ≠ [] → token auth ∉ connected m →
  run (leave auth) s =
    (Returned (mkSuccess true),
     {| keys := keys s;
        clock := clock s;
        emitted := emitted s ++ [(roomId auth, ChatUserLeft None)] |}).
Proof.
  intros H Hv Hne Hout. unfold leave. simpl. rewrite H, Hv. simpl.
  unfold indexOf. rewrite indexOf_from_absent by done.
  unfold filter_indexed. rewrite filter_from_keep_all; last first.
  { intros _ j Hj. apply negb_true_iff, Z.eqb_neq. lia. }
  rewrite filter_keep_absent by done.
  destruct (users m) as [|u us] eqn:Hu; [done|].
  simpl length. replace (Z.of_nat (S (length us)) =? 0) with false
    by (symmetry; apply Z.eqb_neq; lia).
  simpl. rewrite H, Hv. simpl. unfold at_index. simpl.
  rewrite <- Hu, same_meta, <- Hv, same_entry.
  unfold put_key, with_keys. simpl.
  rewrite insert_id by (by apply lookup_key_raw). done.
Qed.

Lemma destroy_group auth e m :
  lookup_key s (meta_key (roomId auth)) = Some e → value e = VHash m →
  type m = "group"%string →
  run (destroy auth) s = (Thrown "Cannot manually destroy group rooms", s).
Proof.
  intros H Hv Ht. unfold destroy. simpl. rewrite H, Hv. simpl. by rewrite Ht.
Qed.

Lemma destroy_other auth e m :
  lookup_key s (meta_key (roomId auth)) = Some e → value e = VHash m →
  type m ≠ "group"%string →
  run (destroy auth) s = (Returned (mkSuccess true), room_removed s (roomId auth)).
Proof.
  intros H Hv Ht. unfold destroy. simpl. rewrite H, Hv. simpl.
  destruct (String.eqb_spec (type m) "group"); done.
Qed.

Lemma destroy_absent auth :
  lookup_key s (meta_key (roomId auth)) = None →
  run (destroy auth) s = (Returned (mkSuccess true), room_removed s (roomId auth)).
Proof. intros H. unfold destroy. simpl. by rewrite H. Qed.

Lemma postMessage_absent new_id now_ms sender text auth :
  lookup_key s (meta_key (roomId auth)) = None →
  run (postMessage new_id now_ms sender text auth) s =
    (Thrown "Room does not exist", s).
Proof. intros H. unfold postMessage. simpl. by rewrite H. Qed.

Lemma postMessage_ok new_id now_ms sender text auth e t :
  lookup_key s (meta_key (roomId auth)) = Some e → expire_at e = Some t →
  holds_list s (messages_key (roomId auth)) →
  run (postMessage new_id now_ms sender text auth) s =
    (Returned tt,
     {| keys :=
          <[messages_key (roomId auth) :=
              mkEntry (VList (stored_log s (roomId auth)
                              ++ [built_message new_id now_ms sender text auth
                                    (Some (token auth))]))
                      (Some t)]> (keys s);
        clock := clock s;
        emitted :=
          emitted s ++ [(roomId auth,
                         ChatMessage (built_message new_id now_ms sender text auth None))] |}).
Proof.
  intros H Hexp Hlist.
  destruct (ttl_of_expiring _ _ _ _ H Hexp) as [Httl Hpos].
  assert (clock s + (t - clock s) = t) as Hsum by lia.
  apply Z.leb_gt in Hpos.
  assert (meta_key (roomId auth) ≠ messages_key (roomId auth)) as Hne
    by apply meta_messages_ne.
  unfold postMessage, holds_list, stored_log, built_message in *.
  simpl. rewrite H. simpl.
  destruct (lookup_key s (messages_key (roomId auth))) as [e'|] eqn:Hm.
  - destruct (value e') as [|l|] eqn:Hv'; try done. simpl.
    rewrite ttl_publish, ttl_put_ne, Httl, lookup_publish by done.
    rewrite lookup_put_eq by exact (lookup_key_alive _ _ _ Hm).
    rewrite Hpos. simpl. rewrite Hsum.
    unfold put_key, publish, with_keys. simpl. by rewrite insert_insert_eq.
  - simpl.
    rewrite ttl_publish, ttl_put_ne, Httl, lookup_publish by done.
    rewrite lookup_put_eq by done.
    rewrite Hpos. simpl. rewrite Hsum.
    unfold put_key, publish, with_keys. simpl. by rewrite insert_insert_eq.
Qed.

Lemma postMessage_log new_id now_ms sender text auth e t :
  lookup_key s (meta_key (roomId auth)) = Some e → expire_at e = Some t →
  holds_list s (messages_key (roomId auth)) →
  stored_log (run (postMessage new_id now_ms sender text auth) s).2 (roomId auth) =
    stored_log s (roomId auth)
    ++ [built_message new_id now_ms sender text auth (Some (token auth))].
Proof.
  intros H Hexp Hlist. rewrite (postMessage_ok _ _ _ _ _ _ _ H Hexp Hlist).
  apply lookup_key_alive in H. unfold alive in H. rewrite Hexp in H.
  unfold stored_log at 1, lookup_key. simpl.
  rewrite lookup_insert_eq. unfold alive. simpl. by rewrite H.
Qed.

Lemma listMessages_run auth :
  holds_list s (messages_key (roomId auth)) →
  run (listMessages auth) s =
    (Returned (map (listed auth) (stored_log s (roomId auth))), s).
Proof.
  unfold holds_list, stored_log, listMessages. simpl.
  destruct (lookup_key s (messages_key (roomId auth))) as [e|]; [|done].
  by destruct (value e).
Qed.

End Handlers.

Lemma visible_token_iff auth m :
  is_Some (visible_token auth m) ↔ m_token m = Some (token auth).
Proof.
  unfold visible_token. destruct (m_token m) as [t|].
  - destruct (String.eqb_spec t (token auth)) as [->|Hne].
    + split; [done|by eexists].
    + split; [by intros [? ?]|congruence].
  - split; [by intros [? ?]|done].
Qed.

Lemma visible_token_stored auth m :
  is_Some (visible_token auth m) → visible_token auth m = m_token m.
Proof.
  intros Hs. apply visible_token_iff in Hs as Heq. rewrite Heq.
  unfold visible_token. rewrite Heq. by rewrite String.eqb_refl.
Qed.

Lemma sole_member_removed (tok u : string) :
  filter_indexed (λ _ i, negb (i =? indexOf [tok] tok)) [u] = [].
Proof. unfold indexOf, filter_indexed. simpl. by rewrite String.eqb_refl. Qed.

Lemma room_one_meta :
  lookup_key room_one (meta_key "R") = Some (mkEntry (VHash meta_one) (Some 600)).
Proof. reflexivity. Qed.

Lemma room_two_meta :
  lookup_key room_two (meta_key "R") = Some (mkEntry (VHash meta_two) (Some 600)).
Proof. reflexivity. Qed.

Lemma group_room_meta :
  lookup_key group_room (meta_key "G") = Some (mkEntry (VHash meta_group) (Some 600)).
Proof. reflexivity. Qed.

(** ** The handlers on small inputs *)

Example indexOf_found : indexOf ["T1"; "T2"; "T3"]%string "T2" = 1.
Proof. reflexivity. Qed.

Example indexOf_missing : indexOf ["T1"; "T2"]%string "K1" = -1.
Proof. reflexivity. Qed.

Example at_index_negative : at_index ["alice"; "bob"]%string (-1) = None.
Proof. reflexivity. Qed.

Example roomMatch_room : roomMatch "/room/R" = Some "R"%string.
Proof. reflexivity. Qed.

Example roomMatch_nested : roomMatch "/room/R/x" = None.
Proof. reflexivity. Qed.

Example isBot_preview : isBot "Slackbot-LinkExpanding 1.0" = true.
Proof. reflexivity. Qed.

Example isBot_browser : isBot "Mozilla/5.0 (X11; Linux x86_64)" = false.
Proof. reflexivity. Qed.

(** Bob leaves a room of two: the record keeps alice, and the event names
    bob. *)
Example leave_second_member :
  let s' := (run (leave (mkAuth "R" "T2")) room_two).2 in
  lookup_key s' (meta_key "R") = Some (mkEntry (VHash meta_one) (Some 600))
  ∧ emitted s' = [("R", ChatUserJoined "bob"); ("R", ChatUserLeft (Some "bob"))].
Proof. split; reflexivity. Qed.

(** A bot is let through without being admitted. *)
Example middleware_bot :
  run (middleware "K1" "/room/R" (Some "Twitterbot/1.0") None) room_one
  = (Returned (Next None), room_one).
Proof. reflexivity. Qed.

(** * The specification, claim by claim *)

(** C2, as the code has it.  When the room's metadata record is absent,
    [leave] changes nothing at all (no key written or deleted, no event
    published) and replies [{ success: false }]. *)
Theorem leave_room_gone (s : State) (auth : Auth) :
  lookup_key s (meta_key (roomId auth)) = None →
  run (leave auth) s = (Returned (mkSuccess false), s).
Proof. apply leave_absent. Qed.

Lemma leave_room_gone_witness :
  lookup_key empty_state (meta_key "R") = None
  ∧ run (leave (mkAuth "R" "T1")) empty_state
    = (Returned (mkSuccess false), empty_state).
Proof.
  split; [reflexivity|].
  apply (leave_room_gone empty_state (mkAuth "R" "T1")). reflexivity.
Defined.

(** C2, as the claim words it, fails: on the empty store the room record
    is absent and the reply of [leave] is not a success. *)
Lemma leave_room_gone_not_success :
  lookup_key empty_state (meta_key "R") = None
  ∧ (run (leave (mkAuth "R" "T1")) empty_state).1 ≠ Returned (mkSuccess true).
Proof. split; [reflexivity|]. simpl. discriminate. Qed.

(** C3.  [join] replies room-not-found when there is no metadata record;
    replies room-full when the room is private and already lists two names
    or more; and otherwise appends the name to [users] and the fresh token to
    [connected] (keeping the record's expiry and every other key), publishes
    one [chat.user_joined] event carrying the name, and replies with the room
    id, the token and the room's kind. *)
Theorem join_cases (s : State) (new_token r name : string) :
  (lookup_key s (meta_key r) = None →
   run (join new_token r name) s = (Returned (JoinError "room-not-found"), s))
  ∧ (∀ e m,
       lookup_key s (meta_key r) = Some e → value e = VHash m →
       (type m = "private"%string ∧ (2 ≤ length (users m))%nat →
        run (join new_token r name) s = (Returned (JoinError "room-full"), s))
       ∧ (¬ (type m = "private"%string ∧ (2 ≤ length (users m))%nat) →
          run (join new_token r name) s =
            (Returned (Joined (mkRoomReply r new_token (type m))),
             {| keys :=
                  <[meta_key r :=
                      mkEntry (VHash {| connected := connected m ++ [new_token];
                                        createdAt := createdAt m;
                                        type := type m;
                                        users := users m ++ [name] |})
                              (expire_at e)]> (keys s);
                clock := clock s;
                emitted := emitted s ++ [(r, ChatUserJoined name)] |}))).
Proof.
  split; [apply join_absent|].
  intros e m H Hv. split.
  - intros [Ht Hl]. by eapply join_full.
  - intros Hnot. by apply join_admits.
Qed.

Lemma join_cases_witness :
  run (join "T2" "R" "bob") empty_state
    = (Returned (JoinError "room-not-found"), empty_state)
  ∧ run (join "T3" "R" "carol") room_two
    = (Returned (JoinError "room-full"), room_two)
  ∧ (run (join "T2" "R" "bob") room_one).1
    = Returned (Joined (mkRoomReply "R" "T2" "private")).
Proof.
  split; [|split].
  - apply (proj1 (join_cases empty_state "T2" "R" "bob")). reflexivity.
  - apply (proj1 (proj2 (join_cases room_two "T3" "R" "carol") _ meta_two
                    room_two_meta eq_refl)).
    split; [reflexivity|simpl; lia].
  - rewrite (proj2 (proj2 (join_cases room_one "T2" "R" "bob") _ meta_one
                      room_one_meta eq_refl)); [reflexivity|].
    intros [_ Hl]. simpl in Hl. lia.
Defined.

(** C4.  When removing the caller leaves no member name, [leave] deletes
    the metadata record and the message log and nothing else, publishes
    exactly one event, a [chat.destroy] (so no [chat.user_left]), and replies
    with success; neither record exists afterwards.  A room whose only token
    is the caller's and whose only name is theirs is such a state. *)
Theorem leave_last_member (s : State) (auth : Auth) (e : entry) (m : Meta) :
  lookup_key s (meta_key (roomId auth)) = Some e → value e = VHash m →
  filter_indexed (λ _ i, negb (i =? indexOf (connected m) (token auth))) (users m) = [] →
  ∃ s',
    run (leave auth) s = (Returned (mkSuccess true), s')
    ∧ keys s' = delete (messages_key (roomId auth))
                  (delete (meta_key (roomId auth)) (keys s))
    ∧ emitted s' = emitted s ++ [(roomId auth, ChatDestroy true)]
    ∧ lookup_key s' (meta_key (roomId auth)) = None
    ∧ lookup_key s' (messages_key (roomId auth)) = None.
Proof.
  intros H Hv Hempty. exists (room_removed s (roomId auth)).
  split; [by eapply leave_last|].
  split; [done|]. split; [done|].
  split; [apply room_removed_meta|apply room_removed_messages].
Qed.

Lemma leave_last_member_witness :
  ∃ s',
    run (leave (mkAuth "R" "T1")) room_one = (Returned (mkSuccess true), s')
    ∧ keys s' = delete (messages_key "R") (delete (meta_key "R") (keys room_one))
    ∧ emitted s' = emitted room_one ++ [("R", ChatDestroy true)]
    ∧ lookup_key s' (meta_key "R") = None
    ∧ lookup_key s' (messages_key "R") = None.
Proof.
  apply (leave_last_member room_one (mkAuth "R" "T1") _ meta_one room_one_meta eq_refl).
  apply (sole_member_removed "T1" "alice").
Defined.

(** C5.  [destroy] on a group room throws and leaves the store and the
    event log as they were.  On any other room, whatever its member lists
    hold, and also when the record is absent, it publishes exactly one
    [chat.destroy] event, deletes the metadata record and the message log,
    and replies with success. *)
Theorem destroy_cases (s : State) (auth : Auth) :
  (∀ e m,
     lookup_key s (meta_key (roomId auth)) = Some e → value e = VHash m →
     type m = "group"%string →
     run (destroy auth) s = (Thrown "Cannot manually destroy group rooms", s))
  ∧ ((lookup_key s (meta_key (roomId auth)) = None
      ∨ ∃ e m, lookup_key s (meta_key (roomId auth)) = Some e
               ∧ value e = VHash m ∧ type m ≠ "group"%string) →
     ∃ s',
       run (destroy auth) s = (Returned (mkSuccess true), s')
       ∧ keys s' = delete (messages_key (roomId auth))
                     (delete (meta_key (roomId auth)) (keys s))
       ∧ emitted s' = emitted s ++ [(roomId auth, ChatDestroy true)]
       ∧ lookup_key s' (meta_key (roomId auth)) = None
       ∧ lookup_key s' (messages_key (roomId auth)) = None).
Proof.
  split; [apply destroy_group|].
  intros Hcase. exists (room_removed s (roomId auth)). split.
  - destruct Hcase as [H|(e & m & H & Hv & Ht)];
      [by apply destroy_absent|by eapply destroy_other].
  - split; [done|]. split; [done|].
    split; [apply room_removed_meta|apply room_removed_messages].
Qed.

Lemma destroy_cases_witness :
  run (destroy (mkAuth "G" "T1")) group_room
    = (Thrown "Cannot manually destroy group rooms", group_room)
  ∧ ∃ s',
      run (destroy (mkAuth "R" "T1")) room_two = (Returned (mkSuccess true), s')
      ∧ keys s' = delete (messages_key "R") (delete (meta_key "R") (keys room_two))
      ∧ emitted s' = emitted room_two ++ [("R", ChatDestroy true)]
      ∧ lookup_key s' (meta_key "R") = None
      ∧ lookup_key s' (messages_key "R") = None.
Proof.
  split.
  - apply (proj1 (destroy_cases group_room (mkAuth "G" "T1")) _ meta_group
             group_room_meta eq_refl).
    reflexivity.
  - apply (proj2 (destroy_cases room_two (mkAuth "R" "T1"))).
    right. exists (mkEntry (VHash meta_two) (Some 600)), meta_two.
    split; [exact room_two_meta|]. split; [reflexivity|]. simpl. discriminate.
Defined.

(** C6.  [postMessage] on a room whose metadata record is absent throws
    and leaves the whole state as it was: nothing is appended to the log, no
    event is published, no expiry is set. *)
Theorem postMessage_room_gone (s : State) (new_id : string) (now_ms : Z)
    (sender text : string) (auth : Auth) :
  lookup_key s (meta_key (roomId auth)) = None →
  run (postMessage new_id now_ms sender text auth) s =
    (Thrown "Room does not exist", s).
Proof. apply postMessage_absent. Qed.

Lemma postMessage_room_gone_witness :
  lookup_key empty_state (meta_key "R") = None
  ∧ run (postMessage "M1" 5 "alice" "hi" (mkAuth "R" "T1")) empty_state
    = (Thrown "Room does not exist", empty_state).
Proof.
  split; [reflexivity|].
  apply (postMessage_room_gone empty_state "M1" 5 "alice" "hi" (mkAuth "R" "T1")).
  reflexivity.
Defined.

(** C7.  [listMessages] changes nothing and returns the whole stored log,
    entry by entry in stored order, which is the order of posting since
    [postMessage] appends at the end.  Every listed message repeats the
    stored one except for the token, which is present exactly when the stored
    token is the requester's, and is then that token: the author sees the
    token of their message, the holder of any other token does not. *)
Theorem listMessages_view :
  (∀ (s : State) (auth : Auth),
     holds_list s (messages_key (roomId auth)) →
     ∃ out,
       run (listMessages auth) s = (Returned out, s)
       ∧ length out = length (stored_log s (roomId auth))
       ∧ ∀ (i : nat) (m : Message),
           stored_log s (roomId auth) !! i = Some m →
           ∃ m',
             out !! i = Some m'
             ∧ m_id m' = m_id m ∧ m_sender m' = m_sender m
             ∧ m_text m' = m_text m ∧ m_timestamp m' = m_timestamp m
             ∧ m_roomId m' = m_roomId m
             ∧ (is_Some (m_token m') ↔ m_token m = Some (token auth))
             ∧ (is_Some (m_token m') → m_token m' = m_token m))
  ∧ (∀ (s : State) new_id now_ms sender text (auth : Auth) e t,
       lookup_key s (meta_key (roomId auth)) = Some e → expire_at e = Some t →
       holds_list s (messages_key (roomId auth)) →
       stored_log (run (postMessage new_id now_ms sender text auth) s).2 (roomId auth)
       = stored_log s (roomId auth)
         ++ [built_message new_id now_ms sender text auth (Some (token auth))])
  ∧ (∀ (r author other : string) (m : Message),
       m_token m = Some author → author ≠ other →
       m_token (listed (mkAuth r author) m) = Some author
       ∧ m_token (listed (mkAuth r other) m) = None).
Proof.
  split; [|split].
  - intros s auth Hlist. eexists. split; [by apply listMessages_run|].
    split; [by rewrite length_map|].
    intros i m Hi. exists (listed auth m). rewrite list_lookup_fmap, Hi.
    repeat (split; [done|]). simpl.
    split; [apply visible_token_iff|apply visible_token_stored].
  - intros. by eapply postMessage_log.
  - intros r author other m Hm Hne. simpl. unfold visible_token. rewrite Hm. simpl.
    rewrite String.eqb_refl. split; [done|].
    by destruct (String.eqb_spec author other).
Qed.

Lemma listMessages_view_witness :
  (run (listMessages (mkAuth "R" "T1")) room_chat).1
    = Returned [ mkMessage "M1" "alice" "hi" 5 "R" (Some "T1");
                 mkMessage "M2" "bob" "hello" 7 "R" None ]
  ∧ (∃ out,
       run (listMessages (mkAuth "R" "T2")) room_chat = (Returned out, room_chat)
       ∧ length out = length (stored_log room_chat "R")
       ∧ ∀ (i : nat) (m : Message),
           stored_log room_chat "R" !! i = Some m →
           ∃ m',
             out !! i = Some m'
             ∧ m_id m' = m_id m ∧ m_sender m' = m_sender m
             ∧ m_text m' = m_text m ∧ m_timestamp m' = m_timestamp m
             ∧ m_roomId m' = m_roomId m
             ∧ (is_Some (m_token m') ↔ m_token m = Some "T2")
             ∧ (is_Some (m_token m') → m_token m' = m_token m))
  ∧ stored_log (run (postMessage "M1" 5 "alice" "hi" (mkAuth "R" "T1")) room_two).2 "R"
    = stored_log room_two "R" ++ [mkMessage "M1" "alice" "hi" 5 "R" (Some "T1")].
Proof.
  split; [reflexivity|]. split.
  - apply (proj1 listMessages_view room_chat (mkAuth "R" "T2")). exact I.
  - apply (proj1 (proj2 listMessages_view) room_two "M1" 5 "alice" "hi"
             (mkAuth "R" "T1") _ 600 room_two_meta eq_refl).
    exact I.
Defined.

(** C10.  When the metadata record exists with at least one member name
    and the caller's token is not in its [connected] list, [leave] leaves
    every key of the store as it was (so both lists are unchanged and the
    room is not destroyed), publishes one [chat.user_left] event whose
    username is undefined, and replies with success. *)
Theorem leave_unlisted_token (s : State) (auth : Auth) (e : entry) (m : Meta) :
  lookup_key s (meta_key (roomId auth)) = Some e → value e = VHash m →
  users m ≠ [] → token auth ∉ connected m →
  run (leave auth) s =
    (Returned (mkSuccess true),
     {| keys := keys s;
        clock := clock s;
        emitted := emitted s ++ [(roomId auth, ChatUserLeft None)] |}).
Proof. apply leave_stranger. Qed.

Lemma leave_unlisted_token_witness :
  "K1" ∈ set_at gated_room (connected_key "R")
  ∧ run (leave (mkAuth "R" "K1")) gated_room =
      (Returned (mkSuccess true),
       {| keys := keys gated_room;
          clock := clock gated_room;
          emitted := emitted gated_room ++ [("R", ChatUserLeft None)] |}).
Proof.
  split; [by apply elem_of_singleton|].
  apply (leave_unlisted_token gated_room (mkAuth "R" "K1") _ meta_one eq_refl eq_refl).
  - discriminate.
  - simpl. intros Hin. apply list_elem_of_singleton in Hin. discriminate.
Defined.

(** ** States the application can be in *)

Lemma all_ret P {A} (a : A) : all_cmds P (Ret a).
Proof. done. Qed.

Lemma all_throw P {A} msg : all_cmds P (@Throw A msg).
Proof. done. Qed.

Lemma all_do P {A X} (c : cmd X) (k : X → prog A) :
  P X c → (∀ x, all_cmds P (k x)) → all_cmds P (Do c k).
Proof. by split. Qed.

Lemma all_cmds_bind P {A B} (p : prog A) (f : A → prog B) :
  all_cmds P p → (∀ a, all_cmds P (f a)) → all_cmds P (bind p f).
Proof.
  intros Hp Hf. induction p as [a|msg|X c k IH]; simpl in *; [done..|].
  destruct Hp as [Hc Hk]. split; [done|]. intros x. by apply IH.
Qed.

Lemma run_all_cmds (P : ∀ X, cmd X → Prop) (I : State → Prop) :
  (∀ X (c : cmd X) s, P X c → I s → I (exec c s).2) →
  ∀ A (p : prog A) s, all_cmds P p → I s → I (run p s).2.
Proof.
  intros Hexec A p. induction p as [a|msg|X c k IH]; intros s Hp Hs; [done..|].
  destruct Hp as [Hc Hk]. simpl. specialize (Hexec X c s Hc Hs).
  destruct (exec c s) as [[x|msg] s1]; simpl in *; [by apply IH|done].
Qed.

Lemma rooms_expire_put s k e :
  rooms_expire s → well_kept s k e → rooms_expire (put_key s k e).
Proof.
  intros Hinv He k' e'. unfold put_key. simpl.
  destruct (decide (k = k')) as [<-|Hne].
  - rewrite lookup_insert_eq. by intros [= <-].
  - rewrite lookup_insert_ne by done. apply Hinv.
Qed.

Lemma rooms_expire_drop s k : rooms_expire s → rooms_expire (drop_key s k).
Proof.
  intros Hinv k' e'. unfold drop_key. simpl.
  destruct (decide (k = k')) as [<-|Hne].
  - by rewrite lookup_delete_eq.
  - rewrite lookup_delete_ne by done. apply Hinv.
Qed.

Lemma rooms_expire_exec X (c : cmd X) s :
  spares_rooms X c → rooms_expire s → rooms_expire (exec c s).2.
Proof.
  intros Hc Hinv.
  destruct c as [k m|k|k seconds|k|k|k|k m|k|k x|k arg|channel ev];
    simpl in *; try done;
    unfold admission_script, scard, sadd;
    repeat case_match; simplify_eq; simpl; try done;
    try (by apply rooms_expire_drop);
    try (by apply rooms_expire_put).
  apply rooms_expire_put; [done|].
  match goal with H : lookup_key _ _ = Some _ |- _ =>
    apply lookup_key_raw in H; specialize (Hinv _ _ H) end.
  unfold well_kept in *. simpl. destruct (value _); [|done..].
  destruct Hinv as [[r ->] _]. destruct Hc as [r' [Heq|Heq]].
  - by apply meta_messages_ne in Heq.
  - by apply meta_connected_ne in Heq.
Qed.

Ltac walk_program :=
  repeat first
    [ apply all_ret
    | apply all_throw
    | apply all_do;
      [simpl; first [done|by eauto|right; by apply Z.gtb_lt]|intros ?]
    | match goal with
      | |- all_cmds _ (if ?b then _ else _) => destruct b eqn:?
      | |- all_cmds _ (match ?x with _ => _ end) => destruct x eqn:?
      | |- all_cmds _ (bind (match ?x with _ => _ end) _) => destruct x eqn:?
      | |- all_cmds _ (bind (if ?b then _ else _) _) => destruct b eqn:?
      end ].

Lemma getTtl_spares auth : all_cmds spares_rooms (getTtl auth).
Proof. unfold getTtl. walk_program. Qed.

Lemma getUsers_spares auth : all_cmds spares_rooms (getUsers auth).
Proof. unfold getUsers. walk_program. Qed.

Lemma destroy_spares auth : all_cmds spares_rooms (destroy auth).
Proof. unfold destroy. walk_program. Qed.

Lemma postMessage_spares a b c d auth :
  all_cmds spares_rooms (postMessage a b c d auth).
Proof. unfold postMessage. walk_program. Qed.

Lemma listMessages_spares auth : all_cmds spares_rooms (listMessages auth).
Proof. unfold listMessages. walk_program. Qed.

Lemma middleware_spares a b c d : all_cmds spares_rooms (middleware a b c d).
Proof. unfold middleware. walk_program. Qed.

Lemma rooms_expire_hset s k m e :
  lookup_key s k = Some e → rooms_expire s →
  rooms_expire (exec (HSet k m) s).2.
Proof.
  intros Hk Hinv. simpl. rewrite Hk.
  destruct (value e) as [m0| |] eqn:Hv; simpl; try done.
  apply rooms_expire_put; [done|].
  apply lookup_key_raw in Hk. specialize (Hinv _ _ Hk).
  unfold well_kept in *. simpl. by rewrite Hv in Hinv.
Qed.

Lemma rooms_expire_create a b c d e s :
  rooms_expire s → rooms_expire (run (create a b c d e) s).2.
Proof.
  intros Hinv. unfold create. simpl.
  set (m := {| connected := [b] |}).
  assert (∀ ex, rooms_expire
            (put_key (put_key s (meta_key a) (mkEntry (VHash m) ex)) (meta_key a)
               (mkEntry (VHash m) (Some (clock s + ROOM_TTL_SECONDS))))) as Hput.
  { intros ex. unfold put_key, with_keys. simpl. rewrite insert_insert_eq.
    apply (rooms_expire_put s); [done|]. unfold well_kept. simpl.
    split; [by eexists|]. eexists. split; [done|lia]. }
  destruct (lookup_key s (meta_key a)) as [e0|] eqn:Hk.
  - destruct (value e0) eqn:Hv; simpl; try done.
    rewrite lookup_put_eq by exact (lookup_key_alive _ _ _ Hk). simpl. apply Hput.
  - simpl. rewrite lookup_put_eq by done. simpl. apply Hput.
Qed.

Lemma rooms_expire_join a b c s :
  rooms_expire s → rooms_expire (run (join a b c) s).2.
Proof.
  intros Hinv. unfold join. simpl.
  destruct (lookup_key s (meta_key b)) as [e0|] eqn:Hk; [|done].
  destruct (value e0) as [m| |] eqn:Hv; simpl; try done.
  destruct (_ && _); simpl; [done|].
  pose proof (rooms_expire_hset s (meta_key b)
    {| connected := connected m ++ [a]; createdAt := createdAt m;
       type := type m; users := users m ++ [c] |} e0 Hk Hinv) as Hset.
  simpl in Hset. rewrite Hk, Hv in *. done.
Qed.

Lemma rooms_expire_leave auth s :
  rooms_expire s → rooms_expire (run (leave auth) s).2.
Proof.
  intros Hinv. unfold leave. simpl.
  destruct (lookup_key s (meta_key (roomId auth))) as [e0|] eqn:Hk; [|done].
  destruct (value e0) as [m| |] eqn:Hv; simpl; try done.
  destruct (_ =? 0); simpl.
  - by do 2 apply rooms_expire_drop.
  - rewrite Hk, Hv. simpl. apply (rooms_expire_put s); [done|].
    apply lookup_key_raw in Hk. specialize (Hinv _ _ Hk).
    unfold well_kept in *. simpl. by rewrite Hv in Hinv.
Qed.

Lemma rooms_expire_tick dt s : 0 <= dt → rooms_expire s → rooms_expire (tick dt s).
Proof.
  intros Hdt Hinv k e Hk. specialize (Hinv k e Hk). unfold well_kept in *.
  destruct (value e); [|done..].
  destruct Hinv as [Hr (t & Ht & Hle)].
  split; [done|]. exists t. split; [done|]. simpl. lia.
Qed.

Lemma reachable_rooms_expire s : reachable s → rooms_expire s.
Proof.
  induction 1 as [|q s Hs IH|dt s Hdt Hs IH].
  - intros k e Hk. simpl in Hk. by rewrite lookup_empty in Hk.
  - destruct q; unfold serve.
    + by apply rooms_expire_create.
    + by apply rooms_expire_join.
    + apply (run_all_cmds spares_rooms rooms_expire rooms_expire_exec); [apply getTtl_spares|done].
    + apply (run_all_cmds spares_rooms rooms_expire rooms_expire_exec); [apply getUsers_spares|done].
    + by apply rooms_expire_leave.
    + apply (run_all_cmds spares_rooms rooms_expire rooms_expire_exec); [apply destroy_spares|done].
    + apply (run_all_cmds spares_rooms rooms_expire rooms_expire_exec); [apply postMessage_spares|done].
    + apply (run_all_cmds spares_rooms rooms_expire rooms_expire_exec); [apply listMessages_spares|done].
    + apply (run_all_cmds spares_rooms rooms_expire rooms_expire_exec); [apply middleware_spares|done].
  - by apply rooms_expire_tick.
Qed.

Lemma reachable_meta s r e :
  reachable s → lookup_key s (meta_key r) = Some e →
  ∃ m t, value e = VHash m ∧ expire_at e = Some t
         ∧ clock s < t <= clock s + ROOM_TTL_SECONDS.
Proof.
  intros Hs Hk. pose proof (lookup_key_alive _ _ _ Hk) as Hal.
  apply lookup_key_raw in Hk. apply reachable_rooms_expire in Hs.
  specialize (Hs _ _ Hk). unfold well_kept in Hs.
  destruct (value e) as [m|l|st].
  - destruct Hs as [_ (t & Ht & Hle)]. exists m, t.
    unfold alive in Hal. rewrite Ht in Hal. apply Z.ltb_lt in Hal. done.
  - destruct Hs as [r' Heq]. by apply meta_messages_ne in Heq.
  - destruct Hs as [r' Heq]. by apply meta_connected_ne in Heq.
Qed.

Lemma reachable_holds_list s r :
  reachable s → holds_list s (messages_key r).
Proof.
  intros Hs. unfold holds_list.
  destruct (lookup_key s (messages_key r)) as [e|] eqn:Hk; [|done].
  apply lookup_key_raw in Hk. apply reachable_rooms_expire in Hs.
  specialize (Hs _ _ Hk). unfold well_kept in Hs.
  destruct (value e) as [m|l|st]; [|done|].
  - destruct Hs as [[r' Heq] _]. symmetry in Heq. by apply meta_messages_ne in Heq.
  - destruct Hs as [r' Heq]. by apply messages_connected_ne in Heq.
Qed.

(** X22.  In every state reached by requests served one at a time, each
    in one go, a message append that succeeds leaves the message log with
    exactly the time to live that the metadata record had when the append
    read it; that time is the record's remaining one, between 1 and
    [ROOM_TTL_SECONDS], and the record itself, its expiry included, is as it
    was before the append. *)
Theorem postMessage_syncs_ttl (s s' : State) (new_id : string) (now_ms : Z)
    (sender text : string) (auth : Auth) :
  reachable s →
  run (postMessage new_id now_ms sender text auth) s = (Returned tt, s') →
  ttl_of s' (messages_key (roomId auth)) = ttl_of s (meta_key (roomId auth))
  ∧ ttl_of s' (meta_key (roomId auth)) = ttl_of s (meta_key (roomId auth))
  ∧ lookup_key s' (meta_key (roomId auth)) = lookup_key s (meta_key (roomId auth))
  ∧ 0 < ttl_of s (meta_key (roomId auth)) <= ROOM_TTL_SECONDS.
Proof.
  intros Hs Hrun.
  destruct (lookup_key s (meta_key (roomId auth))) as [e|] eqn:Hk; last first.
  { by rewrite postMessage_absent in Hrun. }
  destruct (reachable_meta _ _ _ Hs Hk) as (m & t & Hv & Hexp & Hlo & Hhi).
  rewrite (postMessage_ok s _ _ _ _ _ _ _ Hk Hexp (reachable_holds_list _ _ Hs))
    in Hrun.
  injection Hrun as <-.
  assert (meta_key (roomId auth) ≠ messages_key (roomId auth)) as Hne
    by apply meta_messages_ne.
  assert (ttl_of s (meta_key (roomId auth)) = t - clock s) as Httl
    by (unfold ttl_of; by rewrite Hk, Hexp).
  rewrite Httl. unfold ttl_of, lookup_key. simpl.
  rewrite lookup_insert_eq, lookup_insert_ne by done.
  unfold alive at 1. simpl.
  destruct (Z.ltb_spec (clock s) t); [|lia]. simpl.
  change (match keys s !! meta_key (roomId auth) with
          | Some e0 => if alive (clock s) e0 then Some e0 else None
          | None => None
          end) with (lookup_key s (meta_key (roomId auth))).
  rewrite Hk, Hexp. repeat split; lia.
Qed.

Lemma room_later_reachable : reachable room_later.
Proof.
  apply reach_tick; [lia|].
  apply (reach_serve (ReqJoin "T2" "R" "bob")).
  apply (reach_serve (ReqCreate "R" "T1" 1000 "private" "alice")).
  apply reach_empty.
Qed.

Lemma postMessage_syncs_ttl_witness :
  let s' := (run (postMessage "M1" 5 "alice" "hi" (mkAuth "R" "T1")) room_later).2 in
  ttl_of room_later (meta_key "R") = 500
  ∧ ttl_of s' (messages_key "R") = ttl_of room_later (meta_key "R")
  ∧ ttl_of s' (meta_key "R") = ttl_of room_later (meta_key "R")
  ∧ lookup_key s' (meta_key "R") = lookup_key room_later (meta_key "R")
  ∧ 0 < ttl_of room_later (meta_key "R") <= ROOM_TTL_SECONDS.
Proof.
  intros s'. split; [reflexivity|].
  apply (postMessage_syncs_ttl room_later s' "M1" 5 "alice" "hi" (mkAuth "R" "T1")
           room_later_reachable).
  reflexivity.
Defined.

(** C8.  The append does not always leave the log with the record's
    time to live.  Bob's [join] reads the record, alice's [destroy] removes
    it, and the join's write brings it back without expiry.  Bob's
    [postMessage] then returns normally and publishes the message; the time
    to live it reads for the record is -1, and setting that as the log's
    expiry deletes the log: the store reports -2 for it, the message is lost,
    and the record itself is untouched.  The middleware sets the expiry it
    has read only when it is positive; [postMessage] has no such test. *)
Theorem postMessage_unsynced_after_race :
  let s' := (run (postMessage "M1" 5 "bob" "hi" (mkAuth "R" "T2")) raced_room).2 in
  lookup_key raced_room (meta_key "R") = Some (mkEntry (VHash meta_two) None)
  ∧ (run (postMessage "M1" 5 "bob" "hi" (mkAuth "R" "T2")) raced_room).1 = Returned tt
  ∧ ttl_of raced_room (meta_key "R") = -1
  ∧ ttl_of s' (messages_key "R") = -2
  ∧ ttl_of s' (messages_key "R") ≠ ttl_of raced_room (meta_key "R")
  ∧ stored_log s' "R" = []
  ∧ lookup_key s' (meta_key "R") = lookup_key raced_room (meta_key "R").
Proof.
  intros s'. split_and!; try reflexivity. vm_compute. discriminate.
Qed.

Lemma create_ok (s s1 : State) (new_room new_token : string) (now_ms : Z)
    (body_type body_username : string) (reply : RoomReply) :
  run (create new_room new_token now_ms body_type body_username) s
    = (Returned reply, s1) →
  reply = mkRoomReply new_room new_token body_type
  ∧ lookup_key s1 (meta_key new_room)
    = Some (mkEntry (VHash {| connected := [new_token]; createdAt := now_ms;
                              type := body_type; users := [body_username] |})
                    (Some (clock s + ROOM_TTL_SECONDS)))
  ∧ clock s1 = clock s.
Proof.
  unfold create. simpl.
  destruct (lookup_key s (meta_key new_room)) as [e0|] eqn:Hk.
  - destruct (value e0) eqn:Hv; simpl; try done.
    rewrite lookup_put_eq by exact (lookup_key_alive _ _ _ Hk). simpl.
    intros [= <- <-]. split; [done|]. split; [|done].
    apply lookup_put_eq. unfold alive. simpl. apply Z.ltb_lt. unfold ROOM_TTL_SECONDS. lia.
  - simpl. rewrite lookup_put_eq by done. simpl.
    intros [= <- <-]. split; [done|]. split; [|done].
    apply lookup_put_eq. unfold alive. simpl. apply Z.ltb_lt. unfold ROOM_TTL_SECONDS. lia.
Qed.

(** C9.  [getTtl] changes nothing and returns a whole number of seconds
    that is never negative: the time to live the store reports when that is
    positive, and 0 otherwise, in particular when the key is absent or has
    expired.  Asked less than ten seconds after a [create] that returned,
    with the room id of its reply, it returns 600 minus the seconds elapsed,
    which is more than 590 and at most 600. *)
Theorem getTtl_bounds :
  (∀ (s : State) (auth : Auth),
     ∃ n, run (getTtl auth) s = (Returned n, s)
          ∧ 0 <= n
          ∧ n = Z.max 0 (ttl_of s (meta_key (roomId auth)))
          ∧ (lookup_key s (meta_key (roomId auth)) = None → n = 0))
  ∧ (∀ (s s1 : State) new_room new_token now_ms body_type body_username reply
       (dt : Z) (tok : string),
       run (create new_room new_token now_ms body_type body_username) s
         = (Returned reply, s1) →
       0 <= dt < 10 →
       ∃ n, run (getTtl (mkAuth (r_roomId reply) tok)) (tick dt s1)
              = (Returned n, tick dt s1)
            ∧ n = 600 - dt ∧ 590 < n <= 600).
Proof.
  split.
  - intros s auth. unfold getTtl. simpl. eexists. split; [done|].
    destruct (Z.gtb_spec (ttl_of s (meta_key (roomId auth))) 0) as [Hpos|Hneg].
    + split; [lia|]. split; [lia|]. intros Hk. unfold ttl_of in Hpos.
      rewrite Hk in Hpos. lia.
    + split; [lia|]. split; [lia|]. done.
  - intros s s1 new_room new_token now_ms body_type body_username reply dt tok
      Hrun Hdt.
    destruct (create_ok _ _ _ _ _ _ _ _ Hrun) as (-> & Hk & Hclock).
    unfold getTtl. simpl. eexists. split; [done|].
    assert (ttl_of (tick dt s1) (meta_key new_room) = 600 - dt) as ->.
    { apply lookup_key_raw in Hk. unfold ttl_of, lookup_key. simpl. rewrite Hk.
      unfold alive. simpl. rewrite Hclock.
      destruct (Z.ltb_spec (clock s + dt) (clock s + ROOM_TTL_SECONDS)) as [_|Hge];
        unfold ROOM_TTL_SECONDS in *; simpl; lia. }
    destruct (Z.gtb_spec (600 - dt) 0); lia.
Qed.

Lemma getTtl_bounds_witness :
  (∃ n, run (getTtl (mkAuth "R" "T1")) empty_state = (Returned n, empty_state)
        ∧ 0 <= n
        ∧ n = Z.max 0 (ttl_of empty_state (meta_key "R"))
        ∧ (lookup_key empty_state (meta_key "R") = None → n = 0))
  ∧ ∃ n, run (getTtl (mkAuth "R" "T1")) (tick 3 room_one)
           = (Returned n, tick 3 room_one)
         ∧ n = 600 - 3 ∧ 590 < n <= 600.
Proof.
  split.
  - apply (proj1 getTtl_bounds empty_state (mkAuth "R" "T1")).
  - apply (proj2 getTtl_bounds empty_state room_one "R" "T1" 1000 "private" "alice"
             (mkRoomReply "R" "T1" "private") 3 "T1").
    + reflexivity.
    + lia.
Defined.

(** ** Concurrent requests and the admission script *)

Lemma set_at_put_ne s k k' e : k ≠ k' → set_at (put_key s k e) k' = set_at s k'.
Proof. intros Hne. unfold set_at. by rewrite lookup_put_ne. Qed.

Lemma set_at_drop_ne s k k' : k ≠ k' → set_at (drop_key s k) k' = set_at s k'.
Proof. intros Hne. unfold set_at. by rewrite lookup_drop_ne. Qed.

Lemma set_at_put_eq s k e :
  alive (clock s) e = true →
  set_at (put_key s k e) k = match value e with VSet st => st | _ => ∅ end.
Proof. intros Hal. unfold set_at. by rewrite lookup_put_eq. Qed.

Lemma set_at_put_other s k e :
  (∀ st, value e ≠ VSet st) → set_at (put_key s k e) k = ∅.
Proof.
  intros Hv. unfold set_at, lookup_key, put_key. simpl. rewrite lookup_insert_eq.
  destruct (alive (clock s) e); [|done].
  destruct (value e) as [| |st] eqn:Hst; try done. exfalso. by eapply Hv.
Qed.

Lemma size_add_token (x : string) (st : gset string) :
  (size ({[x]} ∪ st) ≤ S (size st))%nat.
Proof.
  destruct (decide (x ∈ st)) as [Hin|Hout].
  - rewrite (subseteq_union_1_L {[x]} st) by (by apply singleton_subseteq_l). lia.
  - rewrite size_union by (by apply disjoint_singleton_l).
    rewrite size_singleton. lia.
Qed.

Lemma sets_bounded_put s k e :
  sets_bounded s → (∀ st, value e = VSet st → (size st ≤ 2)%nat) →
  sets_bounded (put_key s k e).
Proof.
  intros Hb He k' e' st. unfold put_key. simpl.
  destruct (decide (k = k')) as [<-|Hne].
  - rewrite lookup_insert_eq. intros [= <-]. apply He.
  - rewrite lookup_insert_ne by done. apply Hb.
Qed.

Lemma sets_bounded_drop s k : sets_bounded s → sets_bounded (drop_key s k).
Proof.
  intros Hb k' e' st. unfold drop_key. simpl.
  destruct (decide (k = k')) as [<-|Hne].
  - by rewrite lookup_delete_eq.
  - rewrite lookup_delete_ne by done. apply Hb.
Qed.

Lemma sets_bounded_exec X (c : cmd X) s :
  sets_bounded s → sets_bounded (exec c s).2.
Proof.
  intros Hb.
  destruct c as [k m|k|k seconds|k|k|k|k m|k|k x|k arg|channel ev];
    simpl in *; try done;
    unfold admission_script, scard, sadd;
    repeat case_match; simplify_eq; simpl; try done;
    try (by apply sets_bounded_drop);
    try (apply sets_bounded_put; [done|]; simpl; intros; simplify_eq).
  - match goal with H : lookup_key _ _ = Some _ |- _ =>
      apply lookup_key_raw in H; by eapply Hb end.
  - match goal with H : (_ >=? 2) = false |- _ =>
      rewrite Z.geb_leb in H; apply Z.leb_gt in H end.
    match goal with |- (size ({[_]} ∪ ?g) ≤ 2)%nat =>
      pose proof (size_add_token arg g) end.
    lia.
  - rewrite size_singleton. lia.
Qed.

Lemma set_at_absent s k : lookup_key s k = None → set_at s k = ∅.
Proof. intros H. unfold set_at. by rewrite H. Qed.

Lemma set_at_holds s k e st :
  lookup_key s k = Some e → value e = VSet st → set_at s k = st.
Proof. intros H Hv. unfold set_at. by rewrite H, Hv. Qed.

Lemma set_at_other s k e :
  lookup_key s k = Some e → (∀ st, value e ≠ VSet st) → set_at s k = ∅.
Proof.
  intros H Hv. unfold set_at. rewrite H.
  destruct (value e) as [| |st] eqn:Hst; try done. exfalso. by eapply Hv.
Qed.

(** A write of something that is no set, at a key that holds no set. *)
Lemma put_other_grows s k k' e :
  set_at s k' = ∅ → (∀ st, value e ≠ VSet st) →
  set_at (put_key s k' e) k = set_at s k.
Proof.
  intros Hempty Hv. destruct (decide (k' = k)) as [<-|Hne].
  - by rewrite set_at_put_other, Hempty.
  - by apply set_at_put_ne.
Qed.

Lemma exec_quiet k X (c : cmd X) s :
  quiet k X c → (size (set_at s k) ≤ 2)%nat →
  set_at s k ⊆ set_at (exec c s).2 k
  ∧ (size (set_at (exec c s).2 k) ≤ 2)%nat
  ∧ ∀ tok, (k, tok) ∈ admitted_by c (exec c s).1 → tok ∈ set_at (exec c s).2 k.
Proof.
  intros Hq Hsize.
  assert (∀ s', set_at s' k = set_at s k →
            set_at s k ⊆ set_at s' k ∧ (size (set_at s' k) ≤ 2)%nat) as Hsame.
  { intros s' ->. done. }
  destruct c as [k' m|k'|k' seconds|k'|k'|k'|k' m|k'|k' x|k' arg|channel ev];
    simpl in *.
  all: try (split_and!; [| |by intros ? ?%elem_of_nil]; apply Hsame;
            repeat case_match; done).
  - (* HSET *)
    split_and!; [| |by intros ? ?%elem_of_nil]; apply Hsame.
    all: destruct (lookup_key s k') as [e|] eqn:Hk; [destruct (value e) eqn:Hv|];
      simpl; try done.
    all: apply put_other_grows; [|done].
    all: first [by eapply set_at_other; [done|intros ?; rewrite Hv]
               |by apply set_at_absent].
  - (* EXPIRE *)
    split_and!; [| |by intros ? ?%elem_of_nil]; apply Hsame.
    all: destruct (lookup_key s k') as [e|] eqn:Hk; [|done].
    all: destruct (Z.leb_spec seconds 0) as [Hle|Hgt]; simpl.
    all: try (apply set_at_drop_ne; destruct Hq; [done|lia]).
    all: destruct (decide (k' = k)) as [->|Hne]; [|by apply set_at_put_ne].
    all: rewrite set_at_put_eq
      by (unfold alive; simpl; apply Z.ltb_lt; lia).
    all: unfold set_at; by rewrite Hk.
  - (* DEL *)
    split_and!; [| |by intros ? ?%elem_of_nil]; apply Hsame.
    all: by apply set_at_drop_ne.
  - (* RPUSH *)
    split_and!; [| |by intros ? ?%elem_of_nil]; apply Hsame.
    all: destruct (lookup_key s k') as [e|] eqn:Hk; [destruct (value e) eqn:Hv|];
      simpl; try done.
    all: apply put_other_grows; [|done].
    all: first [by eapply set_at_other; [done|intros ?; rewrite Hv]
               |by apply set_at_absent].
  - (* the admission script *)
    unfold admission_script, scard, sadd.
    destruct (lookup_key s k') as [e|] eqn:Hk.
    + destruct (value e) as [| |st] eqn:Hv; cbn -[singleton union].
      1,2: split_and!; [| |by intros ? ?%elem_of_nil]; by apply Hsame.
      destruct (Z.of_nat (size st) >=? 2) eqn:Hc; cbn -[singleton union].
      { split_and!; [| |by intros ? ?%elem_of_nil]; by apply Hsame. }
      rewrite Z.geb_leb in Hc. apply Z.leb_gt in Hc.
      destruct (decide (k' = k)) as [->|Hne].
      * rewrite set_at_put_eq by exact (lookup_key_alive _ _ _ Hk). cbn [value].
        rewrite (set_at_holds _ _ _ _ Hk Hv).
        split_and!.
        -- apply union_subseteq_r.
        -- pose proof (size_add_token arg st). lia.
        -- intros tok Hin. apply list_elem_of_singleton in Hin as [= ->].
           apply elem_of_union_l. by apply elem_of_singleton.
      * rewrite set_at_put_ne by done. split_and!; [done..|].
        intros tok Hin. apply list_elem_of_singleton in Hin as [= ->]. done.
    + cbn -[singleton union]. destruct (decide (k' = k)) as [->|Hne].
      * rewrite set_at_put_eq by done. cbn [value]. rewrite (set_at_absent _ _ Hk).
        split_and!.
        -- apply empty_subseteq.
        -- rewrite size_singleton. lia.
        -- intros tok Hin. apply list_elem_of_singleton in Hin as [= ->].
           by apply elem_of_singleton.
      * rewrite set_at_put_ne by done. split_and!; [done..|].
        intros tok Hin. apply list_elem_of_singleton in Hin as [= ->]. done.
Qed.

Lemma middleware_quiet k a b c d : all_cmds (quiet k) (middleware a b c d).
Proof. unfold middleware. walk_program. Qed.

Lemma act_step_gate {A} k (sys : System A) i :
  gate_ok k sys → gate_ok k (act sys (Step i)).
Proof.
  intros (Hpool & Hsize & Hadm). unfold act.
  destruct (pool sys !! i) as [p|] eqn:Hi; [|done].
  pose proof (proj1 (Forall_lookup _ _) Hpool _ _ Hi) as Hp.
  destruct p as [a|msg|X c kont]; simpl.
  - split_and!; [by apply Forall_insert|done|].
    intros tok. rewrite app_nil_r. apply Hadm.
  - split_and!; [by apply Forall_insert|done|].
    intros tok. rewrite app_nil_r. apply Hadm.
  - destruct Hp as [Hc Hk].
    destruct (exec_quiet k X c (store sys) Hc Hsize) as (Hsub & Hsize' & Hnew).
    split_and!; [|done|].
    + apply Forall_insert; [done|]. by destruct (exec c (store sys)).1.
    + intros tok [Hin|Hin]%elem_of_app; [|by apply Hnew].
      apply Hsub. by apply Hadm.
Qed.

Lemma sched_gate {A} k (acts : list action) (sys : System A) :
  Forall is_step acts → gate_ok k sys → gate_ok k (sched acts sys).
Proof.
  intros Hacts. revert sys.
  induction Hacts as [|a acts Ha _ IH]; intros sys Hok; [done|].
  simpl. apply IH. destruct a as [i|dt]; [|done]. by apply act_step_gate.
Qed.

Lemma act_bounded {A} (sys : System A) a :
  sets_bounded (store sys) → sets_bounded (store (act sys a)).
Proof.
  intros Hb. destruct a as [i|dt]; simpl; [|done].
  destruct (pool sys !! i) as [p|]; [|done].
  destruct p as [x|msg|X c kont]; simpl; [done..|].
  by apply sets_bounded_exec.
Qed.

Lemma sched_bounded {A} (acts : list action) (sys : System A) :
  sets_bounded (store sys) → sets_bounded (store (sched acts sys)).
Proof.
  revert sys. induction acts as [|a acts IH]; intros sys Hb; [done|].
  simpl. apply IH. by apply act_bounded.
Qed.

Lemma tokens_admitted_elem k log tok :
  tok ∈ tokens_admitted k log ↔ (k, tok) ∈ log.
Proof.
  unfold tokens_admitted, admissions.
  rewrite elem_of_list_to_set, list_elem_of_omap.
  split.
  - intros ([k' t] & Hin & Heq). simpl in Heq.
    destruct (decide (k' = k)) as [->|]; [|done]. by injection Heq as ->.
  - intros Hin. exists (k, tok). split; [done|]. simpl.
    by destruct (decide (k = k)).
Qed.

Lemma admission_denied s k tok e st :
  lookup_key s k = Some e → value e = VSet st → (2 ≤ size st)%nat →
  exec (EvalAdmit k tok) s = (Returned 0, s).
Proof.
  intros Hk Hv Hfull. simpl. unfold admission_script, scard. rewrite Hk, Hv.
  rewrite Z.geb_leb. destruct (Z.leb_spec 2 (Z.of_nat (size st))); [done|lia].
Qed.

Lemma admission_admits s k tok e st :
  lookup_key s k = Some e → value e = VSet st → (size st < 2)%nat →
  exec (EvalAdmit k tok) s =
    (Returned 1, put_key s k (mkEntry (VSet ({[tok]} ∪ st)) (expire_at e))).
Proof.
  intros Hk Hv Hroom. simpl. unfold admission_script, scard, sadd. rewrite Hk, Hv.
  rewrite Z.geb_leb. destruct (Z.leb_spec 2 (Z.of_nat (size st))); [lia|done].
Qed.

Lemma admission_admits_first s k tok :
  lookup_key s k = None →
  exec (EvalAdmit k tok) s = (Returned 1, put_key s k (mkEntry (VSet {[tok]}) None)).
Proof.
  intros Hk. simpl. unfold admission_script, scard, sadd. by rewrite Hk.
Qed.

Lemma eval_token_none {X} (c : cmd X) r :
  eval_token c = None → admitted_by c r = [].
Proof. by destruct c. Qed.

Lemma eval_token_some {X} (c : cmd X) r t :
  eval_token c = Some t → admitted_by c r = [] ∨ ∃ k, admitted_by c r = [(k, t)].
Proof.
  destruct c; try done. simpl. intros [= ->].
  destruct r as [n|msg]; [|by left]. destruct (n =? 1); [right; by eexists|by left].
Qed.

Lemma no_eval_one_shot {A} tok (p : prog A) : all_cmds no_eval p → one_shot tok p.
Proof.
  induction p as [a|msg|X c k IH]; [done..|]. intros [Hc Hk]. simpl.
  rewrite Hc. intros x. by apply IH.
Qed.

Ltac walk_one_shot :=
  repeat first
    [ exact I
    | match goal with
      | |- one_shot _ (if ?b then _ else _) => destruct b eqn:?
      | |- one_shot _ (match ?x with _ => _ end) => destruct x eqn:?
      | |- one_shot _ (bind (match ?x with _ => _ end) _) => destruct x eqn:?
      | |- one_shot _ (bind (if ?b then _ else _) _) => destruct b eqn:?
      end
    | progress (cbn [one_shot bind await eval_token]);
      first [intros ? | split; [reflexivity|intros ?; walk_program]] ].

Lemma middleware_one_shot a b c d : one_shot a (middleware a b c d).
Proof. unfold middleware. walk_one_shot. Qed.

Lemma act_step_fresh {A} toks (sys : System A) i :
  NoDup toks → fresh_ok toks sys → fresh_ok toks (act sys (Step i)).
Proof.
  intros Htoks (Hpool & Hlog). unfold act.
  destruct (pool sys !! i) as [p|] eqn:Hi; [|done].
  destruct (Hpool _ _ Hi) as (tok & Htok & Hone & Hdone).
  assert (∀ p' new,
    one_shot tok p' →
    (tok ∈ (admitted sys).*2 ∨ tok ∈ new.*2 → all_cmds no_eval p') →
    (∀ t, t ∈ new.*2 → t = tok) →
    NoDup ((admitted sys ++ new).*2) →
    fresh_ok toks (mkSystem (<[i:=p']> (pool sys)) (step_thread p (store sys)).1.2
                     (admitted sys ++ new))) as Hgoal.
  { intros p' new Hone' Hdone' Hnew Hnd. split; [|done]. simpl.
    intros j q Hj. apply list_lookup_insert_Some in Hj as [(<- & <- & _)|[Hne Hj]].
    - exists tok. split; [done|]. split; [done|].
      rewrite fmap_app, elem_of_app. done.
    - destruct (Hpool _ _ Hj) as (tok' & Htok' & Hone'' & Hdone'').
      exists tok'. split; [done|]. split; [done|].
      rewrite fmap_app, elem_of_app. intros [Hin|Hin]; [by apply Hdone''|].
      apply Hnew in Hin as ->. destruct Hne.
      exact (NoDup_lookup toks i j tok Htoks Htok Htok'). }
  destruct p as [a|msg|X c k]; simpl in *.
  - apply Hgoal; [done|by intros [?|?%elem_of_nil]|by intros ? ?%elem_of_nil|].
    by rewrite app_nil_r.
  - apply Hgoal; [done|by intros [?|?%elem_of_nil]|by intros ? ?%elem_of_nil|].
    by rewrite app_nil_r.
  - destruct (eval_token c) as [t|] eqn:Hc.
    + destruct Hone as [-> Hk].
      assert (tok ∉ (admitted sys).*2) as Hout.
      { intros Hin. destruct (Hdone Hin) as [Hc' _]. unfold no_eval in Hc'. congruence. }
      apply Hgoal.
      * apply no_eval_one_shot. by destruct (exec c (store sys)).1.
      * intros _. by destruct (exec c (store sys)).1.
      * intros t.
        destruct (eval_token_some c (exec c (store sys)).1 tok Hc) as [->|[k' ->]].
        -- by intros ?%elem_of_nil.
        -- by intros ->%list_elem_of_singleton.
      * destruct (eval_token_some c (exec c (store sys)).1 tok Hc) as [->|[k' ->]].
        -- by rewrite app_nil_r.
        -- rewrite fmap_app. apply NoDup_app. split; [done|]. split.
           ++ intros x Hx ->%list_elem_of_singleton. done.
           ++ apply NoDup_singleton.
    + rewrite (eval_token_none c _ Hc). apply Hgoal.
      * by destruct (exec c (store sys)).1.
      * intros [Hin|Hin%elem_of_nil]; [|done]. destruct (Hdone Hin) as [_ Hk].
        by destruct (exec c (store sys)).1.
      * by intros ? ?%elem_of_nil.
      * by rewrite app_nil_r.
Qed.

Lemma sched_fresh {A} toks (acts : list action) (sys : System A) :
  NoDup toks → fresh_ok toks sys → fresh_ok toks (sched acts sys).
Proof.
  intros Htoks. revert sys.
  induction acts as [|a acts IH]; intros sys Hok; [done|].
  simpl. apply IH. destruct a as [i|dt]; [|done]. by apply act_step_fresh.
Qed.

Lemma admissions_NoDup k log : NoDup log.*2 → NoDup (admissions k log).
Proof.
  induction log as [|[k' t] log IH]; simpl; [done|].
  intros [Hout Hnd]%NoDup_cons. unfold admissions. simpl.
  destruct (decide (k' = k)) as [->|]; [|by apply IH].
  apply NoDup_cons. split; [|by apply IH].
  intros ([k2 t2] & Hin & Heq)%list_elem_of_omap. simpl in Heq.
  destruct (decide (k2 = k)); [|done]. injection Heq as ->.
  apply Hout. apply list_elem_of_fmap. by exists (k2, t).
Qed.

(** C1.  The admission script is one command of the store.  On a set of
    two tokens or more it replies 0 and changes nothing; on a smaller set, or
    on no set yet, it inserts the token and replies 1.  Whatever requests run
    concurrently, however their commands interleave and however much time
    passes in between, a store whose sets hold at most two tokens stays so.
    And in any interleaving of any number of page requests, every token the
    script admitted to a room's set is in that set, so no more than two
    tokens are admitted in total; when the requests carry different tokens,
    as [nanoid()] gives them, no more than two requests are admitted. *)
Theorem admission_never_exceeds_capacity :
  (∀ (s : State) (k tok : string),
     (∀ e st, lookup_key s k = Some e → value e = VSet st →
        ((2 ≤ size st)%nat → exec (EvalAdmit k tok) s = (Returned 0, s))
        ∧ ((size st < 2)%nat →
           exec (EvalAdmit k tok) s =
             (Returned 1,
              put_key s k (mkEntry (VSet ({[tok]} ∪ st)) (expire_at e)))))
     ∧ (lookup_key s k = None →
        exec (EvalAdmit k tok) s =
          (Returned 1, put_key s k (mkEntry (VSet {[tok]}) None))))
  ∧ (∀ (A : Type) (acts : list action) (sys : System A),
       sets_bounded (store sys) → sets_bounded (store (sched acts sys)))
  ∧ (∀ (reqs : list PageRequest) (acts : list action) (s : State) (r : string),
       Forall is_step acts →
       (size (set_at s (connected_key r)) ≤ 2)%nat →
       let sys' := sched acts (mkSystem (map gate reqs) s []) in
       (size (set_at (store sys') (connected_key r)) ≤ 2)%nat
       ∧ tokens_admitted (connected_key r) (admitted sys')
           ⊆ set_at (store sys') (connected_key r)
       ∧ (size (tokens_admitted (connected_key r) (admitted sys')) ≤ 2)%nat
       ∧ (NoDup (map page_token reqs) →
          (length (admissions (connected_key r) (admitted sys')) ≤ 2)%nat)).
Proof.
  split_and!.
  - intros s k tok. split.
    + intros e st Hk Hv. split; intros Hsz.
      * by eapply admission_denied.
      * by apply admission_admits.
    + apply admission_admits_first.
  - intros A acts sys. apply sched_bounded.
  - intros reqs acts s r Hacts Hsize sys'.
    assert (gate_ok (connected_key r) sys') as (_ & Hsize' & Hadm).
    { apply sched_gate; [done|]. split_and!; simpl; [|done|].
      - apply Forall_forall. intros p [q [-> _]]%list_elem_of_fmap.
        apply middleware_quiet.
      - by intros tok ?%elem_of_nil. }
    assert (tokens_admitted (connected_key r) (admitted sys')
              ⊆ set_at (store sys') (connected_key r)) as Hsub.
    { intros tok Hin. by apply Hadm, tokens_admitted_elem. }
    assert (size (tokens_admitted (connected_key r) (admitted sys')) ≤ 2)%nat
      as Hcount by (etrans; [by apply subseteq_size|done]).
    split_and!; [done..|].
    intros Htoks.
    assert (fresh_ok (map page_token reqs) sys') as [_ Hlog].
    { apply sched_fresh; [done|]. split; simpl; [|apply NoDup_nil_2].
      intros i p Hi. apply list_lookup_fmap_Some in Hi as (q & -> & Hq).
      exists (page_token q). split; [by rewrite list_lookup_fmap, Hq|].
      split; [apply middleware_one_shot|by intros ?%elem_of_nil]. }
    unfold tokens_admitted in Hcount.
    by rewrite size_list_to_set in Hcount by by apply admissions_NoDup.
Qed.

Lemma rush_outcome :
  let sys' := sched rush (mkSystem (map gate three_visitors) room_one []) in
  pool sys' = [ Ret (Redirect "/?error=room-full");
                Ret (Next (Some "K2"));
                Ret (Next (Some "K3")) ]
  ∧ admitted sys' = [ (connected_key "R", "K3"); (connected_key "R", "K2") ]
  ∧ elements (set_at (store sys') (connected_key "R")) ≡ₚ ["K2"; "K3"].
Proof.
  intros sys'. split; [reflexivity|]. split; [reflexivity|].
  vm_compute. apply perm_swap || reflexivity.
Qed.

Lemma admission_never_exceeds_capacity_witness :
  let sys' := sched rush (mkSystem (map gate three_visitors) room_one []) in
  (size (set_at (store sys') (connected_key "R")) ≤ 2)%nat
  ∧ tokens_admitted (connected_key "R") (admitted sys')
      ⊆ set_at (store sys') (connected_key "R")
  ∧ (size (tokens_admitted (connected_key "R") (admitted sys')) ≤ 2)%nat
  ∧ (NoDup (map page_token three_visitors) →
     (length (admissions (connected_key "R") (admitted sys')) ≤ 2)%nat).
Proof.
  apply (proj2 (proj2 admission_never_exceeds_capacity) three_visitors rush
           room_one "R").
  - unfold rush. repeat constructor.
  - vm_compute. lia.
Defined.

(** * Further properties of the code *)

(** ** The countdown display *)

Lemma two_digits (secs : Z) :
  0 <= secs < 60 →
  padStart 2 "0" (pretty secs)
  = String (digit (secs / 10)) (String (digit (secs mod 10)) "").
Proof.
  intros Hs.
  assert (∃ k : nat, (k < 60)%nat ∧ secs = Z.of_nat k) as (k & Hk & ->).
  { exists (Z.to_nat secs). lia. }
  do 60 (destruct k as [|k]; [vm_compute; reflexivity|]). lia.
Qed.

Lemma string_app_length (s1 s2 : string) :
  String.length (s1 +:+ s2) = (String.length s1 + String.length s2)%nat.
Proof. induction s1 as [|c s1 IH]; simpl; [done|]. by rewrite IH. Qed.

Lemma string_app_inj_suffix (s1 t1 u v : string) :
  String.length u = String.length v → s1 +:+ u = t1 +:+ v → s1 = t1 ∧ u = v.
Proof.
  intros Hlen. revert t1. induction s1 as [|c s1 IH]; intros [|d t1] Heq.
  - done.
  - apply (f_equal String.length) in Heq.
    rewrite !string_app_length in Heq. simpl in Heq. lia.
  - apply (f_equal String.length) in Heq.
    rewrite !string_app_length in Heq. simpl in Heq. lia.
  - change (String c (s1 +:+ u) = String d (t1 +:+ v)) in Heq.
    injection Heq as -> Heq. destruct (IH _ Heq) as [-> ->]. done.
Qed.

Lemma formatTimeRemaining_shape (seconds : Z) :
  0 <= seconds →
  formatTimeRemaining seconds
  = pretty (seconds / 60) +:+ ":"
    +:+ String (digit (seconds mod 60 / 10)) (String (digit (seconds mod 60 mod 10)) "").
Proof.
  intros Hs. unfold formatTimeRemaining. cbv zeta.
  rewrite Z.rem_mod_nonneg by lia.
  rewrite two_digits by (apply Z.mod_pos_bound; lia). done.
Qed.

Lemma digit_inj (a b : Z) : 0 <= a < 10 → 0 <= b < 10 → digit a = digit b → a = b.
Proof.
  intros Ha Hb Heq. unfold digit in Heq.
  apply (f_equal N_of_ascii) in Heq.
  rewrite !N_ascii_embedding in Heq by lia. lia.
Qed.

(** X1.  For a whole number of seconds from 0 up, [formatTimeRemaining]
    shows the minutes in decimal, a colon, and the seconds of the minute
    as exactly two digits; and two different times never show alike. *)
Theorem formatTimeRemaining_unambiguous :
  (∀ seconds, 0 <= seconds <= MAX_SAFE_INTEGER →
     ∃ d1 d2,
       0 <= d1 < 6 ∧ 0 <= d2 < 10
       ∧ formatTimeRemaining seconds
         = pretty (seconds / 60) +:+ ":" +:+ String (digit d1) (String (digit d2) "")
       ∧ seconds = 60 * (seconds / 60) + 10 * d1 + d2)
  ∧ (∀ a b, 0 <= a <= MAX_SAFE_INTEGER → 0 <= b <= MAX_SAFE_INTEGER →
       formatTimeRemaining a = formatTimeRemaining b → a = b).
Proof.
  split.
  - intros n [Hn _]. exists (n mod 60 / 10), (n mod 60 mod 10).
    pose proof (Z.mod_pos_bound n 60 ltac:(lia)) as Hm.
    split; [split; [apply Z.div_pos; lia|apply Z.div_lt_upper_bound; lia]|].
    split; [apply Z.mod_pos_bound; lia|].
    split; [by apply formatTimeRemaining_shape|].
    pose proof (Z.div_mod n 60 ltac:(lia)).
    pose proof (Z.div_mod (n mod 60) 10 ltac:(lia)). lia.
  - intros a b [Ha _] [Hb _] Heq.
    rewrite !formatTimeRemaining_shape in Heq by done.
    apply string_app_inj_suffix in Heq as [Hmins Hsecs]; [|done].
    apply (inj pretty) in Hmins.
    cbv [String.append] in Hsecs. injection Hsecs as Hd1 Hd2.
    pose proof (Z.mod_pos_bound a 60 ltac:(lia)) as Hma.
    pose proof (Z.mod_pos_bound b 60 ltac:(lia)) as Hmb.
    apply digit_inj in Hd1;
      [|split; [apply Z.div_pos; lia|apply Z.div_lt_upper_bound; lia]..].
    apply digit_inj in Hd2; [|apply Z.mod_pos_bound; lia..].
    pose proof (Z.div_mod a 60 ltac:(lia)).
    pose proof (Z.div_mod b 60 ltac:(lia)).
    pose proof (Z.div_mod (a mod 60) 10 ltac:(lia)).
    pose proof (Z.div_mod (b mod 60) 10 ltac:(lia)). lia.
Qed.

Lemma formatTimeRemaining_unambiguous_witness :
  formatTimeRemaining 597 = "9:57"%string
  ∧ (formatTimeRemaining 597 = formatTimeRemaining 597 → 597 = 597)
  ∧ ∃ d1 d2,
      0 <= d1 < 6 ∧ 0 <= d2 < 10
      ∧ formatTimeRemaining 597
        = pretty (597 / 60) +:+ ":" +:+ String (digit d1) (String (digit d2) "")
      ∧ 597 = 60 * (597 / 60) + 10 * d1 + d2.
Proof.
  split; [reflexivity|]. split.
  - apply (proj2 formatTimeRemaining_unambiguous 597 597);
      unfold MAX_SAFE_INTEGER; lia.
  - apply (proj1 formatTimeRemaining_unambiguous 597). unfold MAX_SAFE_INTEGER. lia.
Defined.

Example formatTimeRemaining_full : formatTimeRemaining 600 = "10:00"%string.
Proof. reflexivity. Qed.

Example formatTimeRemaining_negative : formatTimeRemaining (-5) = "-1:-5"%string.
Proof. reflexivity. Qed.

Lemma countdown_tick_nonneg prev : 0 <= countdown_tick prev.
Proof.
  destruct prev as [p|]; simpl; [|lia]. destruct (Z.leb_spec p 1); lia.
Qed.

(** X2.  The one-second timer counts a time remaining of [t] seconds,
    [t] not negative, down by one per tick until 0 and keeps it there; from
    no time at all or from a negative one the first tick gives 0; after a
    tick the time is never negative. *)
Theorem countdown_reaches_zero :
  (∀ (k : nat) (t : Z), 0 <= t →
     countdown k (Some t) = Some (Z.max 0 (t - Z.of_nat k)))
  ∧ (∀ (k : nat) (t : Z), t < 0 → countdown (S k) (Some t) = Some 0)
  ∧ (∀ k : nat, countdown (S k) None = Some 0)
  ∧ (∀ (k : nat) prev, ∃ t, countdown (S k) prev = Some t ∧ 0 <= t).
Proof.
  assert (∀ (k : nat) (t : Z), 0 <= t →
            countdown k (Some t) = Some (Z.max 0 (t - Z.of_nat k))) as Hdown.
  { induction k as [|k IH]; intros t Ht; simpl.
    - f_equal. lia.
    - destruct (Z.leb_spec t 1).
      + rewrite IH by lia. f_equal. lia.
      + rewrite IH by lia. f_equal. lia. }
  split_and!.
  - done.
  - intros k t Ht. simpl. destruct (Z.leb_spec t 1); [|lia].
    rewrite Hdown by lia. f_equal. lia.
  - intros k. simpl. rewrite Hdown by lia. f_equal. lia.
  - intros k prev. simpl. pose proof (countdown_tick_nonneg prev).
    rewrite Hdown by done. eexists. split; [done|]. lia.
Qed.

Lemma countdown_reaches_zero_witness :
  countdown 3 (Some 5) = Some (Z.max 0 (5 - 3))
  ∧ countdown 7 (Some 5) = Some (Z.max 0 (5 - 7))
  ∧ countdown 1 (Some (-2)) = Some 0.
Proof.
  split; [|split].
  - apply (proj1 countdown_reaches_zero 3%nat 5). lia.
  - apply (proj1 countdown_reaches_zero 7%nat 5). lia.
  - apply (proj1 (proj2 countdown_reaches_zero) 0%nat (-2)). lia.
Defined.

(** ** Members leaving and joining *)

Lemma indexOf_from_NoDup (l : list string) x (i : nat) k :
  NoDup l → l !! i = Some x → indexOf_from l x k = k + Z.of_nat i.
Proof.
  revert i k. induction l as [|y l IH]; intros i k Hnd Hi; [done|].
  apply NoDup_cons in Hnd as [Hy Hnd]. destruct i as [|i]; simpl in *.
  - injection Hi as ->. rewrite String.eqb_refl. lia.
  - destruct (String.eqb_spec y x) as [->|Hne].
    + destruct Hy. by eapply list_elem_of_lookup_2.
    + rewrite (IH i) by done. lia.
Qed.

Lemma filter_from_delete {A} (f : A → Z → bool) (l : list A) (i : nat) k :
  (∀ x j, f x j = negb (j =? k + Z.of_nat i)) →
  filter_from f l k = delete i l.
Proof.
  revert i k. induction l as [|x l IH]; intros i k Hf; [done|].
  simpl. rewrite Hf. destruct i as [|i].
  - replace (k =? k + Z.of_nat 0) with true by (symmetry; apply Z.eqb_eq; lia).
    simpl.
    apply filter_from_keep_all. intros y j Hj. rewrite Hf.
    apply negb_true_iff, Z.eqb_neq. lia.
  - replace (k =? k + Z.of_nat (S i)) with false
      by (symmetry; apply Z.eqb_neq; lia).
    simpl.
    f_equal. apply IH. intros y j. rewrite Hf. do 2 f_equal. lia.
Qed.

Lemma filter_delete_NoDup (l : list string) x (i : nat) :
  NoDup l → l !! i = Some x →
  List.filter (λ t, negb (String.eqb t x)) l = delete i l.
Proof.
  revert i. induction l as [|y l IH]; intros i Hnd Hi; [done|].
  apply NoDup_cons in Hnd as [Hy Hnd]. destruct i as [|i]; simpl in *.
  - injection Hi as ->. rewrite String.eqb_refl. simpl.
    by apply filter_keep_absent.
  - destruct (String.eqb_spec y x) as [->|Hne].
    + destruct Hy. by eapply list_elem_of_lookup_2.
    + simpl. f_equal. by apply IH.
Qed.

Lemma at_index_nat {A} (l : list A) (i : nat) : at_index l (Z.of_nat i) = l !! i.
Proof.
  unfold at_index. destruct (Z.ltb_spec (Z.of_nat i) 0); [lia|].
  by rewrite Nat2Z.id.
Qed.

Lemma leave_member (s : State) (auth : Auth) (e : entry) (m : Meta)
    (i : nat) :
  lookup_key s (meta_key (roomId auth)) = Some e → value e = VHash m →
  NoDup (connected m) → connected m !! i = Some (token auth) →
  delete i (users m) ≠ [] →
  run (leave auth) s =
    (Returned (mkSuccess true),
     {| keys :=
          <[meta_key (roomId auth) :=
              mkEntry (VHash {| connected := delete i (connected m);
                                createdAt := createdAt m;
                                type := type m;
                                users := delete i (users m) |})
                      (expire_at e)]> (keys s);
        clock := clock s;
        emitted := emitted s ++ [(roomId auth, ChatUserLeft (users m !! i))] |}).
Proof.
  intros H Hv Hnd Hi Hrest. unfold leave. simpl. rewrite H, Hv. simpl.
  unfold indexOf. rewrite (indexOf_from_NoDup _ _ i) by done.
  unfold filter_indexed. rewrite (filter_from_delete _ _ i) by done.
  rewrite (filter_delete_NoDup _ _ i) by done. rewrite Z.add_0_l, at_index_nat.
  destruct (delete i (users m)) as [|u us] eqn:Hu; [done|].
  simpl length. replace (Z.of_nat (S (length us)) =? 0) with false
    by (symmetry; apply Z.eqb_neq; lia).
  simpl. by rewrite H, Hv.
Qed.

(** X3.  A member whose token stands at position [i] of a duplicate-free
    [connected] list leaves, and someone else's name remains: the record
    loses position [i] of both lists and keeps its expiry, no other key
    changes, one [chat.user_left] event carries the name that stood at
    position [i] of [users], and the reply is a success. *)
Theorem leave_removes_member (s : State) (auth : Auth) (e : entry) (m : Meta)
    (i : nat) :
  lookup_key s (meta_key (roomId auth)) = Some e → value e = VHash m →
  NoDup (connected m) → connected m !! i = Some (token auth) →
  delete i (users m) ≠ [] →
  run (leave auth) s =
    (Returned (mkSuccess true),
     {| keys :=
          <[meta_key (roomId auth) :=
              mkEntry (VHash {| connected := delete i (connected m);
                                createdAt := createdAt m;
                                type := type m;
                                users := delete i (users m) |})
                      (expire_at e)]> (keys s);
        clock := clock s;
        emitted := emitted s ++ [(roomId auth, ChatUserLeft (users m !! i))] |}).
Proof. apply leave_member. Qed.

Lemma leave_removes_member_witness :
  run (leave (mkAuth "R" "T2")) room_two =
    (Returned (mkSuccess true),
     {| keys :=
          <[meta_key "R" :=
              mkEntry (VHash {| connected := ["T1"]; createdAt := 1000;
                                type := "private"; users := ["alice"] |})
                      (Some 600)]> (keys room_two);
        clock := clock room_two;
        emitted := emitted room_two ++ [("R", ChatUserLeft (Some "bob"))] |}).
Proof.
  apply (leave_removes_member room_two (mkAuth "R" "T2") _ meta_two 1
           room_two_meta eq_refl).
  - apply (bool_decide_unpack _). vm_compute. exact I.
  - reflexivity.
  - discriminate.
Defined.

(** X4.  Joining and leaving again undoes itself.  When the record lists
    as many names as tokens, at least one, and the new token is not among
    them, a [join] that is admitted followed by a [leave] with the token it
    returned puts every key of the store back as it was; the two requests
    leave behind a [chat.user_joined] and a [chat.user_left] event, both with
    the joiner's name. *)
Theorem join_then_leave (s : State) (new_token r name : string)
    (e : entry) (m : Meta) :
  lookup_key s (meta_key r) = Some e → value e = VHash m →
  ¬ (type m = "private"%string ∧ (2 ≤ length (users m))%nat) →
  NoDup (connected m) → new_token ∉ connected m →
  length (users m) = length (connected m) → users m ≠ [] →
  run (leave (mkAuth r new_token)) (run (join new_token r name) s).2 =
    (Returned (mkSuccess true),
     {| keys := keys s;
        clock := clock s;
        emitted := emitted s ++ [(r, ChatUserJoined name);
                                 (r, ChatUserLeft (Some name))] |}).
Proof.
  intros H Hv Hroom Hnd Hfresh Hlen Hsome.
  rewrite (join_admits s new_token r name e m H Hv Hroom). cbn [snd].
  set (m' := {| connected := connected m ++ [new_token]; createdAt := createdAt m;
                type := type m; users := users m ++ [name] |}).
  match goal with |- run _ ?st = _ => set (s' := st) end.
  assert (lookup_key s' (meta_key r) = Some (mkEntry (VHash m') (expire_at e))) as H'.
  { unfold lookup_key, s'. simpl. rewrite lookup_insert_eq.
    apply lookup_key_alive in H. unfold alive in *. simpl. by rewrite H. }
  rewrite (leave_member s' (mkAuth r new_token) _ m' (length (connected m))
             H' eq_refl).
  - simpl. rewrite (delete_middle (connected m) [] new_token).
    rewrite lookup_app_r, <- Hlen, Nat.sub_diag by lia.
    rewrite (delete_middle (users m) [] name). simpl.
    rewrite !app_nil_r, insert_insert_eq, same_meta, <- Hv, same_entry.
    rewrite insert_id by (by apply lookup_key_raw).
    by rewrite <- app_assoc.
  - simpl. apply NoDup_app. split; [done|]. split; [|apply NoDup_singleton].
    intros x Hx ->%list_elem_of_singleton. done.
  - simpl. by rewrite lookup_app_r, Nat.sub_diag by lia.
  - simpl. rewrite <- Hlen, (delete_middle (users m) [] name), app_nil_r. done.
Qed.

Lemma join_then_leave_witness :
  run (leave (mkAuth "R" "T2")) (run (join "T2" "R" "bob") room_one).2 =
    (Returned (mkSuccess true),
     {| keys := keys room_one;
        clock := clock room_one;
        emitted := emitted room_one ++ [("R", ChatUserJoined "bob");
                                        ("R", ChatUserLeft (Some "bob"))] |}).
Proof.
  apply (join_then_leave room_one "T2" "R" "bob" _ meta_one room_one_meta eq_refl).
  - intros [_ Hl]. simpl in Hl. lia.
  - apply (bool_decide_unpack _). vm_compute. exact I.
  - simpl. intros Hin. apply list_elem_of_singleton in Hin. discriminate.
  - reflexivity.
  - discriminate.
Defined.

Lemma join_joined_inv (s s' : State) (new_token r name : string) (reply : RoomReply) :
  run (join new_token r name) s = (Returned (Joined reply), s') →
  ∃ e m,
    lookup_key s (meta_key r) = Some e ∧ value e = VHash m
    ∧ ¬ (type m = "private"%string ∧ (2 ≤ length (users m))%nat)
    ∧ reply = mkRoomReply r new_token (type m)
    ∧ s' = {| keys :=
                <[meta_key r :=
                    mkEntry (VHash {| connected := connected m ++ [new_token];
                                      createdAt := createdAt m;
                                      type := type m;
                                      users := users m ++ [name] |})
                            (expire_at e)]> (keys s);
              clock := clock s;
              emitted := emitted s ++ [(r, ChatUserJoined name)] |}.
Proof.
  intros Hrun.
  destruct (lookup_key s (meta_key r)) as [e|] eqn:Hk; last first.
  { by rewrite join_absent in Hrun. }
  destruct (value e) as [m|l|st] eqn:Hv.
  - destruct (decide (type m = "private"%string ∧ (2 ≤ length (users m))%nat))
      as [[Ht Hl]|Hroom].
    + by rewrite (join_full s _ _ _ e m) in Hrun.
    + rewrite (join_admits s _ _ _ e m Hk Hv Hroom) in Hrun.
      injection Hrun as <- <-. by exists e, m.
  - unfold join in Hrun. simpl in Hrun. by rewrite Hk, Hv in Hrun.
  - unfold join in Hrun. simpl in Hrun. by rewrite Hk, Hv in Hrun.
Qed.

Lemma getUsers_present s auth e m :
  lookup_key s (meta_key (roomId auth)) = Some e → value e = VHash m →
  run (getUsers auth) s =
    (Returned (users m, if String.eqb (type m) "" then "private"%string else type m), s).
Proof. intros H Hv. unfold getUsers. simpl. by rewrite H, Hv. Qed.

(** X5.  [getUsers] follows the room: it lists the creator alone right
    after a [create], and after an admitted [join] the names it listed before
    followed by the newcomer's, with the room's kind each time; it never
    changes the state.  A room kind that is the empty string is reported as
    private. *)
Theorem getUsers_follows_room :
  (∀ (s s1 : State) new_room new_token now_ms body_type body_username reply tok,
     run (create new_room new_token now_ms body_type body_username) s
       = (Returned reply, s1) →
     run (getUsers (mkAuth (r_roomId reply) tok)) s1
     = (Returned ([body_username],
                  if String.eqb body_type "" then "private"%string else body_type),
        s1))
  ∧ (∀ (s s' : State) new_token r name reply tok,
       run (join new_token r name) s = (Returned (Joined reply), s') →
       ∃ before kind,
         run (getUsers (mkAuth r tok)) s = (Returned (before, kind), s)
         ∧ run (getUsers (mkAuth r tok)) s' = (Returned (before ++ [name], kind), s')).
Proof.
  split.
  - intros s s1 new_room new_token now_ms body_type body_username reply tok Hrun.
    destruct (create_ok _ _ _ _ _ _ _ _ Hrun) as (-> & Hk & _). cbn [r_roomId].
    by rewrite (getUsers_present s1 (mkAuth new_room tok) _ _ Hk eq_refl).
  - intros s s' new_token r name reply tok Hrun.
    destruct (join_joined_inv _ _ _ _ _ _ Hrun) as (e & m & Hk & Hv & _ & _ & ->).
    exists (users m), (if String.eqb (type m) "" then "private"%string else type m).
    split; [by apply (getUsers_present s (mkAuth r tok) e m)|].
    set (m' := {| connected := connected m ++ [new_token]; createdAt := createdAt m;
                  type := type m; users := users m ++ [name] |}).
    apply (getUsers_present _ (mkAuth r tok) (mkEntry (VHash m') (expire_at e)) m');
      [|done].
    unfold lookup_key. simpl. rewrite lookup_insert_eq.
    apply lookup_key_alive in Hk. unfold alive in *. simpl. by rewrite Hk.
Qed.

Lemma getUsers_follows_room_witness :
  run (getUsers (mkAuth "R" "T1")) room_one
    = (Returned (["alice"], "private"%string), room_one)
  ∧ ∃ before kind,
      run (getUsers (mkAuth "R" "T1")) room_one = (Returned (before, kind), room_one)
      ∧ run (getUsers (mkAuth "R" "T1")) room_two
        = (Returned (before ++ ["bob"], kind), room_two).
Proof.
  split.
  - apply (proj1 getUsers_follows_room empty_state room_one "R" "T1" 1000
             "private" "alice" (mkRoomReply "R" "T1" "private") "T1").
    reflexivity.
  - apply (proj2 getUsers_follows_room room_one room_two "T2" "R" "bob"
             (mkRoomReply "R" "T2" "private") "T1").
    reflexivity.
Defined.




(** ** The lifetime of a room *)

Lemma meta_key_inj r r' : meta_key r = meta_key r' → r = r'.
Proof. unfold meta_key. apply (inj (String.app "meta:")). Qed.

Lemma expires_at_put r ex s k e :
  expires_at r ex s → (k = meta_key r → expire_at e = ex) →
  expires_at r ex (put_key s k e).
Proof.
  intros Hs He e'. destruct (decide (k = meta_key r)) as [->|Hne].
  - unfold lookup_key, put_key. simpl. rewrite lookup_insert_eq.
    destruct (alive (clock s) e); [|done]. intros [= <-]. by apply He.
  - rewrite lookup_put_ne by done. apply Hs.
Qed.

Lemma expires_at_drop r ex s k : expires_at r ex s → expires_at r ex (drop_key s k).
Proof.
  intros Hs e'. destruct (decide (k = meta_key r)) as [->|Hne].
  - by rewrite lookup_drop_eq.
  - rewrite lookup_drop_ne by done. apply Hs.
Qed.

Lemma expires_at_exec r ex X (c : cmd X) s :
  spares_rooms X c → expires_at r ex s → expires_at r ex (exec c s).2.
Proof.
  intros Hc Hs.
  assert (∀ k', (∃ r', k' = messages_key r' ∨ k' = connected_key r') →
                k' ≠ meta_key r) as Hother.
  { intros k' [r' [->| ->]] Heq; symmetry in Heq.
    - by apply meta_messages_ne in Heq.
    - by apply meta_connected_ne in Heq. }
  destruct c as [k m|k|k seconds|k|k|k|k m|k|k x|k arg|channel ev];
    simpl in *; try done;
    unfold admission_script, scard, sadd;
    repeat case_match; simplify_eq; simpl; try done;
    try (by apply expires_at_drop);
    apply expires_at_put; try done; intros Heq; exfalso; revert Heq;
    apply Hother; destruct Hc as [r' Hc]; eauto.
Qed.

Lemma expires_at_join r ex a b c s :
  expires_at r ex s → expires_at r ex (run (join a b c) s).2.
Proof.
  intros Hs. unfold join. simpl.
  destruct (lookup_key s (meta_key b)) as [e0|] eqn:Hk; [|done].
  destruct (value e0) as [m| |] eqn:Hv; simpl; try done.
  destruct (_ && _); simpl; [done|]. rewrite Hk, Hv. simpl.
  apply (expires_at_put r ex s); [done|]. simpl.
  intros Heq%meta_key_inj. subst b. by apply Hs.
Qed.

Lemma expires_at_leave r ex auth s :
  expires_at r ex s → expires_at r ex (run (leave auth) s).2.
Proof.
  intros Hs. unfold leave. simpl.
  destruct (lookup_key s (meta_key (roomId auth))) as [e0|] eqn:Hk; [|done].
  destruct (value e0) as [m| |] eqn:Hv; simpl; try done.
  destruct (_ =? 0); simpl.
  - by do 2 apply expires_at_drop.
  - rewrite Hk, Hv. simpl. apply (expires_at_put r ex s); [done|]. simpl.
    intros Heq%meta_key_inj. rewrite Heq in Hk. by apply Hs.
Qed.

Lemma expires_at_create r ex a b c d e s :
  a ≠ r → expires_at r ex s → expires_at r ex (run (create a b c d e) s).2.
Proof.
  intros Hne Hs e'.
  assert (meta_key a ≠ meta_key r) as Hk by (by intros ?%meta_key_inj).
  unfold create. simpl.
  destruct (lookup_key s (meta_key a)) as [e0|] eqn:Ha.
  - destruct (value e0) eqn:Hv; simpl; try apply Hs.
    rewrite lookup_put_eq by exact (lookup_key_alive _ _ _ Ha). simpl.
    rewrite !lookup_put_ne by done. apply Hs.
  - simpl. rewrite lookup_put_eq by done. simpl.
    rewrite !lookup_put_ne by done. apply Hs.
Qed.

Lemma expiry_kept_served (q : request) (s : State) (r : string) (e e' : entry) :
  not_create_of r q →
  lookup_key s (meta_key r) = Some e →
  lookup_key (serve q s) (meta_key r) = Some e' →
  expire_at e' = expire_at e.
Proof.
  intros Hq Hk Hk'.
  assert (expires_at r (expire_at e) s) as Hs.
  { intros e0. rewrite Hk. by intros [= <-]. }
  cut (expires_at r (expire_at e) (serve q s)); [intros Hs'; by apply Hs'|].
  clear Hk Hk'. destruct q; unfold serve.
  - by apply expires_at_create.
  - by apply expires_at_join.
  - apply (run_all_cmds spares_rooms _ (expires_at_exec r _)); [apply getTtl_spares|done].
  - apply (run_all_cmds spares_rooms _ (expires_at_exec r _)); [apply getUsers_spares|done].
  - by apply expires_at_leave.
  - apply (run_all_cmds spares_rooms _ (expires_at_exec r _)); [apply destroy_spares|done].
  - apply (run_all_cmds spares_rooms _ (expires_at_exec r _));
      [apply postMessage_spares|done].
  - apply (run_all_cmds spares_rooms _ (expires_at_exec r _));
      [apply listMessages_spares|done].
  - apply (run_all_cmds spares_rooms _ (expires_at_exec r _));
      [apply middleware_spares|done].
Qed.

Lemma expires_or_never_put r ex s k e :
  expires_at_or_never r ex s →
  (k = meta_key r → expire_at e = ex ∨ expire_at e = None) →
  expires_at_or_never r ex (put_key s k e).
Proof.
  intros Hs He e'. destruct (decide (k = meta_key r)) as [->|Hne].
  - unfold lookup_key, put_key. simpl. rewrite lookup_insert_eq.
    destruct (alive (clock s) e); [|done]. intros [= <-]. by apply He.
  - rewrite lookup_put_ne by done. apply Hs.
Qed.

Lemma expires_or_never_drop r ex s k :
  expires_at_or_never r ex s → expires_at_or_never r ex (drop_key s k).
Proof.
  intros Hs e'. destruct (decide (k = meta_key r)) as [->|Hne].
  - by rewrite lookup_drop_eq.
  - rewrite lookup_drop_ne by done. apply Hs.
Qed.

Lemma expires_or_never_exec r ex X (c : cmd X) s :
  no_expire_on (meta_key r) X c →
  expires_at_or_never r ex s → expires_at_or_never r ex (exec c s).2.
Proof.
  intros Hc Hs.
  destruct c as [k m|k|k seconds|k|k|k|k m|k|k x|k arg|channel ev];
    simpl in *; try done;
    unfold admission_script, scard, sadd;
    repeat case_match; simplify_eq; simpl; try done;
    try (by apply expires_or_never_drop);
    apply expires_or_never_put; try done; simpl; intros ->;
    first [done | by right
          | match goal with H : lookup_key _ _ = Some _ |- _ => by apply Hs end].
Qed.

Lemma expires_or_never_tick r ex (dt : nat) s :
  expires_at_or_never r ex s → expires_at_or_never r ex (tick (Z.of_nat dt) s).
Proof.
  intros Hs e. unfold lookup_key. simpl.
  destruct (keys s !! meta_key r) as [e0|] eqn:Hraw; [|done].
  destruct (alive (clock s + Z.of_nat dt) e0) eqn:Hlater; [|done].
  intros [= <-]. apply Hs. unfold lookup_key. rewrite Hraw.
  unfold alive in *. destruct (expire_at e0) as [t|]; [|done].
  apply Z.ltb_lt in Hlater. by destruct (Z.ltb_spec (clock s) t); [|lia].
Qed.

Lemma sched_all_cmds (P : ∀ X, cmd X → Prop) (I : State → Prop) :
  (∀ X (c : cmd X) s, P X c → I s → I (exec c s).2) →
  (∀ (dt : nat) s, I s → I (tick (Z.of_nat dt) s)) →
  ∀ A (acts : list action) (sys : System A),
    Forall (all_cmds P) (pool sys) → I (store sys) → I (store (sched acts sys)).
Proof.
  intros Hexec Htick A acts.
  induction acts as [|a acts IH]; intros sys Hpool Hs; [done|].
  simpl. destruct a as [i|dt]; simpl.
  - destruct (pool sys !! i) as [p|] eqn:Hi; [|by apply IH].
    pose proof (proj1 (Forall_lookup _ _) Hpool _ _ Hi) as Hp.
    destruct p as [x|msg|X c k]; simpl.
    + apply IH; simpl; [by apply Forall_insert|done].
    + apply IH; simpl; [by apply Forall_insert|done].
    + destruct Hp as [Hc Hk]. apply IH; simpl; [|by apply Hexec].
      apply Forall_insert; [done|]. by destruct (exec c (store sys)).1.
  - apply IH; simpl; [done|by apply Htick].
Qed.

Ltac walk_no_expire :=
  repeat first
    [ apply all_ret
    | apply all_throw
    | apply all_do;
      [simpl;
       first [done
             |by intros ?%meta_key_inj
             |intros Heq; symmetry in Heq; by apply meta_messages_ne in Heq
             |intros Heq; symmetry in Heq; by apply meta_connected_ne in Heq]
      |intros ?]
    | match goal with
      | |- all_cmds _ (if ?b then _ else _) => destruct b eqn:?
      | |- all_cmds _ (match ?x with _ => _ end) => destruct x eqn:?
      | |- all_cmds _ (bind (match ?x with _ => _ end) _) => destruct x eqn:?
      | |- all_cmds _ (bind (if ?b then _ else _) _) => destruct b eqn:?
      end ].

Lemma handle_no_expire r q :
  not_create_of r q → all_cmds (no_expire_on (meta_key r)) (handle q).
Proof.
  intros Hq. destruct q; unfold handle; (apply all_cmds_bind; [|done]).
  - unfold create. simpl in Hq. walk_no_expire.
  - unfold join. walk_no_expire.
  - unfold getTtl. walk_no_expire.
  - unfold getUsers. walk_no_expire.
  - unfold leave. walk_no_expire.
  - unfold destroy. walk_no_expire.
  - unfold postMessage. walk_no_expire.
  - unfold listMessages. walk_no_expire.
  - unfold middleware. walk_no_expire.
Qed.

(** X7.  No request gives a room a later expiry, save a [create] for the
    same room id.  A request served in one go, with nothing between its
    commands, leaves the record of room [r], when it had one and still has
    one, expiring at the same instant.  And however such requests interleave,
    command by command and with time passing, the record of room [r], when
    there is one at the end, expires at the instant it did at the start or,
    when a late write has brought it back, has no expiry at all. *)
Theorem expiry_never_moves :
  (∀ (q : request) (s : State) (r : string) (e e' : entry),
     not_create_of r q →
     lookup_key s (meta_key r) = Some e →
     lookup_key (serve q s) (meta_key r) = Some e' →
     expire_at e' = expire_at e)
  ∧ (∀ (reqs : list request) (acts : list action) (s : State) (r : string)
       (ex : option Z) (e' : entry),
       Forall (not_create_of r) reqs →
       expires_at r ex s →
       lookup_key (store (sched acts (mkSystem (map handle reqs) s []))) (meta_key r)
         = Some e' →
       expire_at e' = ex ∨ expire_at e' = None).
Proof.
  split; [apply expiry_kept_served|].
  intros reqs acts s r ex e' Hreqs Hs Hk.
  cut (expires_at_or_never r ex
         (store (sched acts (mkSystem (map handle reqs) s []))));
    [intros Hend; by apply Hend|].
  apply (sched_all_cmds (no_expire_on (meta_key r)) (expires_at_or_never r ex)).
  - intros X c s0. apply expires_or_never_exec.
  - intros dt s0. apply expires_or_never_tick.
  - simpl. apply Forall_forall. intros p [q [-> Hq]]%list_elem_of_fmap.
    apply handle_no_expire. by apply (proj1 (Forall_forall _ _) Hreqs).
  - simpl. intros e He. left. by apply Hs.
Qed.

Lemma expiry_never_moves_witness :
  expire_at (mkEntry (VHash meta_two) (Some 600))
  = expire_at (mkEntry (VHash meta_one) (Some 600))
  ∧ (expire_at (mkEntry (VHash meta_two) None) = Some 600
     ∨ expire_at (mkEntry (VHash meta_two) None) = None).
Proof.
  split.
  - apply (proj1 expiry_never_moves (ReqJoin "T2" "R" "bob") room_one "R").
    + exact I.
    + exact room_one_meta.
    + exact room_two_meta.
  - apply (proj2 expiry_never_moves [ReqJoin "T2" "R" "bob"]
             [Step 0; Tick 600; Step 0; Step 0]%nat room_one "R" (Some 600)).
    + repeat constructor.
    + intros e. rewrite room_one_meta. by intros [= <-].
    + reflexivity.
Defined.

(** ** The entry gate *)

Lemma kept_meta s r e :
  rooms_expire s → lookup_key s (meta_key r) = Some e →
  ∃ m t, value e = VHash m ∧ expire_at e = Some t
         ∧ clock s < t <= clock s + ROOM_TTL_SECONDS.
Proof.
  intros Hs Hk. pose proof (lookup_key_alive _ _ _ Hk) as Hal.
  apply lookup_key_raw in Hk. specialize (Hs _ _ Hk). unfold well_kept in Hs.
  destruct (value e) as [m|l|st].
  - destruct Hs as [_ (t & Ht & Hle)]. exists m, t.
    unfold alive in Hal. rewrite Ht in Hal. apply Z.ltb_lt in Hal. done.
  - destruct Hs as [r' Heq]. by apply meta_messages_ne in Heq.
  - destruct Hs as [r' Heq]. by apply meta_connected_ne in Heq.
Qed.

Lemma kept_set s r e :
  rooms_expire s → lookup_key s (connected_key r) = Some e →
  ∃ st, value e = VSet st.
Proof.
  intros Hs Hk. apply lookup_key_raw in Hk. specialize (Hs _ _ Hk).
  unfold well_kept in Hs. destruct (value e) as [m|l|st]; [| |by eexists].
  - destruct Hs as [[r' Heq] _]. symmetry in Heq. by apply meta_connected_ne in Heq.
  - destruct Hs as [r' Heq]. symmetry in Heq. by apply messages_connected_ne in Heq.
Qed.

Lemma middleware_steps (s : State) (new_token pathname : string)
    (userAgent cookie : option string) :
  rooms_expire s →
  run (middleware new_token pathname userAgent cookie) s
  = match roomMatch pathname with
    | None => (Returned (Redirect "/"), s)
    | Some r =>
        match lookup_key s (meta_key r) with
        | None => (Returned (Redirect "/?error=room-not-found"), s)
        | Some e =>
            if isBot (default ""%string userAgent) then (Returned (Next None), s)
            else if match cookie with
                    | Some (String c rest as existingToken) =>
                        bool_decide (existingToken ∈ set_at s (connected_key r))
                    | _ => false
                    end
            then (Returned (Next None), s)
            else if bool_decide (2 ≤ size (set_at s (connected_key r)))%nat
            then (Returned (Redirect "/?error=room-full"), s)
            else
              (Returned (Next (Some new_token)),
               {| keys :=
                    <[connected_key r :=
                        mkEntry (VSet ({[new_token]} ∪ set_at s (connected_key r)))
                                (expire_at e)]> (keys s);
                  clock := clock s;
                  emitted := emitted s |})
        end
    end.
Proof.
  intros Hs. unfold middleware.
  destruct (roomMatch pathname) as [r|]; [|done]. simpl.
  destruct (lookup_key s (meta_key r)) as [e|] eqn:Hmeta; [|done]. simpl.
  destruct (isBot (default ""%string userAgent)); [done|].
  destruct (kept_meta _ _ _ Hs Hmeta) as (m & t & Hv & Hexp & Hlo & Hhi).
  assert (∀ x : string,
            run (await (SIsMember (connected_key r) x)) s
            = (Returned (if bool_decide (x ∈ set_at s (connected_key r)) then 1 else 0),
               s)) as Hmember.
  { intros x. simpl. unfold set_at.
    destruct (lookup_key s (connected_key r)) as [e'|] eqn:Hset; [|done].
    destruct (kept_set _ _ _ Hs Hset) as [st Hst]. by rewrite Hst. }
  assert (run
    (let* added := await (EvalAdmit (connected_key r) new_token) in
     if added =? 0 then Ret (Redirect "/?error=room-full")
     else
       let* ttl := await (Ttl (meta_key r)) in
       (if ttl >? 0 then await (Expire (connected_key r) ttl) else Ret tt) ;;;
       Ret (Next (Some new_token))) s
    = if bool_decide (2 ≤ size (set_at s (connected_key r)))%nat
      then (Returned (Redirect "/?error=room-full"), s)
      else
        (Returned (Next (Some new_token)),
         {| keys :=
              <[connected_key r :=
                  mkEntry (VSet ({[new_token]} ∪ set_at s (connected_key r)))
                          (expire_at e)]> (keys s);
            clock := clock s;
            emitted := emitted s |})) as Hadmit.
  { assert (meta_key r ≠ connected_key r) as Hne by apply meta_connected_ne.
    assert (∀ e1, ttl_of (put_key s (connected_key r) e1) (meta_key r) = t - clock s)
      as Httl.
    { intros e1. rewrite ttl_put_ne by done. unfold ttl_of. by rewrite Hmeta, Hexp. }
    assert ((t - clock s >? 0) = true) as Hpos by (apply Z.gtb_lt; lia).
    assert ((t - clock s <=? 0) = false) as Hpos' by (apply Z.leb_gt; lia).
    assert (clock s + (t - clock s) = t) as Hsum by lia.
    simpl. unfold admission_script, scard, sadd, set_at.
    destruct (lookup_key s (connected_key r)) as [e'|] eqn:Hset.
    - destruct (kept_set _ _ _ Hs Hset) as [st Hst]. rewrite Hst.
      rewrite Z.geb_leb. case_bool_decide as Hfull.
      + destruct (Z.leb_spec 2 (Z.of_nat (size st))); [done|lia].
      + destruct (Z.leb_spec 2 (Z.of_nat (size st))); [lia|]. cbn -[singleton union].
        rewrite Httl, Hpos. cbn -[singleton union].
        rewrite lookup_put_eq by exact (lookup_key_alive _ _ _ Hset).
        rewrite Hpos'. unfold put_key, with_keys. cbn -[singleton union].
        by rewrite Hsum, Hexp, insert_insert_eq.
    - rewrite bool_decide_eq_false_2 by (rewrite size_empty; lia).
      cbn -[singleton union]. rewrite Httl, Hpos. cbn -[singleton union].
      rewrite lookup_put_eq by done.
      rewrite Hpos'. unfold put_key, with_keys. cbn -[singleton union].
      by rewrite Hsum, Hexp, insert_insert_eq, (right_id_L ∅ (∪)). }
  destruct cookie as [[|c rest]|].
  - simpl. apply Hadmit.
  - change (bind (await (SIsMember (connected_key r) (String c rest))) ?f)
      with (Do (SIsMember (connected_key r) (String c rest)) f).
    cbn [run]. specialize (Hmember (String c rest)). simpl in Hmember.
    destruct (exec (SIsMember (connected_key r) (String c rest)) s)
      as [[x|msg] s1] eqn:Hexec; simpl in Hexec; rewrite Hexec in Hmember;
      [|done].
    injection Hmember as -> ->.
    case_bool_decide; [done|]. apply Hadmit.
  - simpl. apply Hadmit.
Qed.

Lemma middleware_admitted_inv (s s' : State) (new_token pathname : string)
    (userAgent cookie : option string) (given : string) :
  rooms_expire s →
  run (middleware new_token pathname userAgent cookie) s
    = (Returned (Next (Some given)), s') →
  ∃ r e,
    roomMatch pathname = Some r ∧ given = new_token
    ∧ lookup_key s (meta_key r) = Some e
    ∧ (size (set_at s (connected_key r)) < 2)%nat
    ∧ s' = {| keys :=
                <[connected_key r :=
                    mkEntry (VSet ({[new_token]} ∪ set_at s (connected_key r)))
                            (expire_at e)]> (keys s);
              clock := clock s;
              emitted := emitted s |}.
Proof.
  intros Hs. rewrite middleware_steps by done.
  destruct (roomMatch pathname) as [r|]; [|done].
  destruct (lookup_key s (meta_key r)) as [e|] eqn:Hmeta; [|done].
  destruct (isBot _); [done|].
  destruct (match cookie with Some (String _ _ as x) => _ | _ => _ end); [done|].
  case_bool_decide as Hsize; [done|]. intros [= <- <-].
  exists r, e. split_and!; try done. lia.
Qed.

Lemma gate_admitted_facts (s s' : State) (new_token pathname : string)
    (userAgent cookie : option string) (given : string) :
  reachable s →
  run (middleware new_token pathname userAgent cookie) s
    = (Returned (Next (Some given)), s') →
  ∃ r,
    roomMatch pathname = Some r ∧ given = new_token
    ∧ is_Some (lookup_key s (meta_key r))
    ∧ (size (set_at s (connected_key r)) < 2)%nat
    ∧ set_at s' (connected_key r) = {[new_token]} ∪ set_at s (connected_key r)
    ∧ ttl_of s' (connected_key r) = ttl_of s (meta_key r)
    ∧ (∀ k, k ≠ connected_key r → keys s' !! k = keys s !! k)
    ∧ emitted s' = emitted s.
Proof.
  intros Hs Hrun. apply reachable_rooms_expire in Hs.
  destruct (middleware_admitted_inv _ _ _ _ _ _ _ Hs Hrun)
    as (r & e & Hr & -> & Hmeta & Hsize & ->).
  destruct (kept_meta _ _ _ Hs Hmeta) as (m & t & Hv & Hexp & Hlo & Hhi).
  exists r. split_and!; try done.
  - unfold set_at at 1, lookup_key. cbn -[singleton union].
    rewrite lookup_insert_eq. unfold alive. cbn -[singleton union].
    rewrite Hexp. by destruct (Z.ltb_spec (clock s) t); [|lia].
  - unfold ttl_of at 1, lookup_key. cbn -[singleton union].
    rewrite lookup_insert_eq. unfold alive. cbn -[singleton union].
    rewrite Hexp. destruct (Z.ltb_spec (clock s) t); [|lia].
    unfold ttl_of. by rewrite Hmeta, Hexp.
  - intros k Hk. cbn -[singleton union]. by rewrite lookup_insert_ne.
Qed.

(** X8.  In every state the application can be in, when the gate hands
    out a token it is the fresh one, the page is that of a room that exists,
    the room's set held fewer than two tokens and now holds the new one as
    well, the set's time to live is the room's, no other key has changed and
    nothing was published. *)
Theorem gate_admission (s s' : State) (new_token pathname : string)
    (userAgent cookie : option string) (given : string) :
  reachable s →
  run (middleware new_token pathname userAgent cookie) s
    = (Returned (Next (Some given)), s') →
  ∃ r,
    roomMatch pathname = Some r ∧ given = new_token
    ∧ is_Some (lookup_key s (meta_key r))
    ∧ (size (set_at s (connected_key r)) < 2)%nat
    ∧ set_at s' (connected_key r) = {[new_token]} ∪ set_at s (connected_key r)
    ∧ ttl_of s' (connected_key r) = ttl_of s (meta_key r)
    ∧ (∀ k, k ≠ connected_key r → keys s' !! k = keys s !! k)
    ∧ emitted s' = emitted s.
Proof. apply gate_admitted_facts. Qed.

Lemma gate_admission_witness :
  ∃ r,
    roomMatch "/room/R" = Some r ∧ "K1"%string = "K1"%string
    ∧ is_Some (lookup_key room_one (meta_key r))
    ∧ (size (set_at room_one (connected_key r)) < 2)%nat
    ∧ set_at gated_room (connected_key r)
      = {["K1"%string]} ∪ set_at room_one (connected_key r)
    ∧ ttl_of gated_room (connected_key r) = ttl_of room_one (meta_key r)
    ∧ (∀ k, k ≠ connected_key r → keys gated_room !! k = keys room_one !! k)
    ∧ emitted gated_room = emitted room_one.
Proof.
  apply (gate_admission room_one gated_room "K1" "/room/R" (Some "Mozilla/5.0") None
           "K1").
  - apply (reach_serve (ReqCreate "R" "T1" 1000 "private" "alice")). apply reach_empty.
  - reflexivity.
Defined.

(** X9.  In every state the application can be in, the gate changes the
    store only when it hands out a token: with any other reply, be it a
    redirection or the passage of a bot or of a returning member, the state
    is as it was.  A request whose user agent names a bot is never given a
    token. *)
Theorem gate_writes_only_on_admission (s s' : State) (new_token pathname : string)
    (userAgent cookie : option string) (reply : outcome Response) :
  reachable s →
  run (middleware new_token pathname userAgent cookie) s = (reply, s') →
  ((∀ given, reply ≠ Returned (Next (Some given))) → s' = s)
  ∧ (isBot (default ""%string userAgent) = true →
     s' = s ∧ ∀ given, reply ≠ Returned (Next (Some given))).
Proof.
  intros Hs. apply reachable_rooms_expire in Hs.
  rewrite middleware_steps by done. intros Hrun.
  destruct (roomMatch pathname) as [r|]; [|by injection Hrun as <- <-].
  destruct (lookup_key s (meta_key r)) as [e|]; [|by injection Hrun as <- <-].
  destruct (isBot _); [by injection Hrun as <- <-|].
  destruct (match cookie with Some (String _ _ as x) => _ | _ => _ end);
    [by injection Hrun as <- <-|].
  case_bool_decide; [by injection Hrun as <- <-|].
  injection Hrun as <- <-. split; [|done]. intros Hno. by destruct (Hno new_token).
Qed.

Lemma gate_writes_only_on_admission_witness :
  ((∀ given, Returned (Next None) ≠ Returned (Next (Some given))) →
   room_one = room_one)
  ∧ (isBot (default ""%string (Some "Twitterbot/1.0"%string)) = true →
     room_one = room_one
     ∧ ∀ given, Returned (Next None) ≠ Returned (Next (Some given))).
Proof.
  apply (gate_writes_only_on_admission room_one room_one "K1" "/room/R"
           (Some "Twitterbot/1.0") None (Returned (Next None))).
  - apply (reach_serve (ReqCreate "R" "T1" 1000 "private" "alice")). apply reach_empty.
  - reflexivity.
Defined.

(** X10.  A visitor the gate has admitted comes back with the token as
    cookie and passes: whatever the user agent and the fresh token of the
    second request, the reply carries no new cookie and the state does not
    change, so one visitor takes one seat.  The token must not be the empty
    string, which the gate reads as no cookie. *)
Theorem gate_lets_member_back (s s' : State) (new_token pathname : string)
    (userAgent cookie : option string) (given : string)
    (next_token : string) (userAgent' : option string) :
  reachable s →
  run (middleware new_token pathname userAgent cookie) s
    = (Returned (Next (Some given)), s') →
  given ≠ ""%string →
  run (middleware next_token pathname userAgent' (Some given)) s'
  = (Returned (Next None), s').
Proof.
  intros Hs Hrun Hgiven.
  assert (reachable s') as Hs'.
  { replace s' with (serve (ReqPage new_token pathname userAgent cookie) s);
      [by apply reach_serve|]. unfold serve. by rewrite Hrun. }
  destruct (gate_admitted_facts _ _ _ _ _ _ _ Hs Hrun)
    as (r & Hr & -> & [e Hmeta] & _ & Hset & _ & Hkeys & _).
  apply reachable_rooms_expire in Hs, Hs'.
  destruct (middleware_admitted_inv _ _ _ _ _ _ _ Hs Hrun)
    as (r' & e' & Hr' & _ & _ & _ & Hstate).
  rewrite middleware_steps, Hr by done.
  assert (lookup_key s' (meta_key r) = Some e) as ->.
  { unfold lookup_key in *. rewrite Hkeys by apply meta_connected_ne.
    by rewrite Hstate. }
  destruct (isBot _); [done|].
  destruct new_token as [|c rest]; [done|].
  rewrite bool_decide_eq_true_2; [done|].
  rewrite Hset. apply elem_of_union_l. by apply elem_of_singleton.
Qed.

Lemma gate_lets_member_back_witness :
  run (middleware "K2" "/room/R" (Some "Mozilla/5.0") (Some "K1")) gated_room
  = (Returned (Next None), gated_room).
Proof.
  apply (gate_lets_member_back room_one gated_room "K1" "/room/R"
           (Some "Mozilla/5.0") None "K1" "K2" (Some "Mozilla/5.0")).
  - apply (reach_serve (ReqCreate "R" "T1" 1000 "private" "alice")). apply reach_empty.
  - reflexivity.
  - discriminate.
Defined.

Lemma roomMatch_some_inv (pathname r : string) :
  roomMatch pathname = Some r →
  pathname = "/room/" +:+ r ∧ r ≠ ""%string ∧ has_slash r = false.
Proof.
  intros H.
  do 6 (destruct pathname as [|a pathname]; [done|];
        destruct a as [[] [] [] [] [] [] [] []]; try done).
  cbn [roomMatch] in H. destruct pathname as [|c rest]; [done|].
  destruct (has_slash (String c rest)) eqn:Hslash; [done|].
  injection H as <-. done.
Qed.

(** X11.  The gate takes a path for a room page exactly when it is
    [/room/] followed by a room id that is not empty and holds no slash, and
    the id it reads is that one. *)
Theorem roomMatch_room_pages (pathname r : string) :
  roomMatch pathname = Some r
  ↔ pathname = "/room/" +:+ r ∧ r ≠ ""%string ∧ has_slash r = false.
Proof.
  split; [apply roomMatch_some_inv|].
  intros (-> & Hr & Hslash). destruct r as [|c rest]; [done|].
  change (roomMatch ("/room/" +:+ String c rest))
    with (if has_slash (String c rest) then None else Some (String c rest)).
  by rewrite Hslash.
Qed.

Lemma roomMatch_room_pages_witness :
  roomMatch "/room/V1StGXR8_Z5jdHi6B-myT" = Some "V1StGXR8_Z5jdHi6B-myT"%string.
Proof.
  apply (proj2 (roomMatch_room_pages "/room/V1StGXR8_Z5jdHi6B-myT"
                  "V1StGXR8_Z5jdHi6B-myT")).
  split; [reflexivity|]. split; [discriminate|reflexivity].
Defined.

Lemma lower_lower c : lower (lower c) = lower c.
Proof. destruct c as [[] [] [] [] [] [] [] []]; reflexivity. Qed.

Lemma starts_with_ci_lower pat s :
  starts_with_ci pat (lower_string s) = starts_with_ci pat s.
Proof.
  revert s. induction pat as [|a pat IH]; intros [|b s]; simpl; try done.
  by rewrite lower_lower, IH.
Qed.

Lemma test_ci_lower pat s : test_ci pat (lower_string s) = test_ci pat s.
Proof.
  induction s as [|b s IH].
  - done.
  - change (test_ci pat (lower_string (String b s)))
      with (starts_with_ci pat (lower_string (String b s))
            || test_ci pat (lower_string s)).
    rewrite starts_with_ci_lower, IH. done.
Qed.

Lemma starts_with_ci_self pat post : starts_with_ci pat (pat +:+ post) = true.
Proof.
  induction pat as [|a pat IH]; [by destruct post|].
  change (Ascii.eqb (lower a) (lower a) && starts_with_ci pat (pat +:+ post) = true).
  by rewrite Ascii.eqb_refl, IH.
Qed.

Lemma test_ci_inside pat pre post : test_ci pat (pre +:+ pat +:+ post) = true.
Proof.
  induction pre as [|b pre IH].
  - change (test_ci pat (pat +:+ post) = true).
    destruct (pat +:+ post) eqn:Heq; simpl; rewrite <- Heq, starts_with_ci_self; done.
  - change (starts_with_ci pat (String b (pre +:+ pat +:+ post))
            || test_ci pat (pre +:+ pat +:+ post) = true).
    rewrite IH. apply orb_true_r.
Qed.

(** X12.  [isBot] looks for its words anywhere and in any letter case: a
    user agent that holds one of the words of [botPatterns] is a bot
    whatever stands before and after, and a user agent is judged as the same
    text in lower case is. *)
Theorem isBot_any_position_any_case :
  (∀ pat pre post, pat ∈ botPatterns → isBot (pre +:+ pat +:+ post) = true)
  ∧ (∀ userAgent, isBot (lower_string userAgent) = isBot userAgent).
Proof.
  split.
  - intros pat pre post Hin. unfold isBot. apply existsb_exists.
    exists pat. split; [by apply list_elem_of_In|]. apply test_ci_inside.
  - intros userAgent. unfold isBot.
    induction botPatterns as [|pat pats IH]; [done|].
    simpl. by rewrite test_ci_lower, IH.
Qed.

Lemma isBot_any_position_any_case_witness :
  isBot ("Mozilla/5.0 (compatible; " +:+ "bot" +:+ "/2.1)") = true.
Proof.
  apply (proj1 isBot_any_position_any_case "bot" "Mozilla/5.0 (compatible; " "/2.1)").
  apply list_elem_of_here.
Defined.

(** ** What every state of the application keeps *)

Lemma events_clean_exec X (c : cmd X) s :
  emits_clean X c → events_clean s → events_clean (exec c s).2.
Proof.
  intros Hc Hs.
  destruct c as [k m|k|k seconds|k|k|k|k m|k|k x|k arg|channel ev];
    simpl in *;
    unfold admission_script, scard, sadd;
    repeat case_match; simplify_eq; simpl; try done.
  intros ch ev' [Hin|Hin]%elem_of_app; [by eapply Hs|].
  apply list_elem_of_singleton in Hin as [= -> ->]. done.
Qed.

Lemma create_clean a b c d e : all_cmds emits_clean (create a b c d e).
Proof. unfold create. walk_program. Qed.

Lemma join_clean a b c : all_cmds emits_clean (join a b c).
Proof. unfold join. walk_program. Qed.

Lemma getTtl_clean auth : all_cmds emits_clean (getTtl auth).
Proof. unfold getTtl. walk_program. Qed.

Lemma getUsers_clean auth : all_cmds emits_clean (getUsers auth).
Proof. unfold getUsers. walk_program. Qed.

Lemma leave_clean auth : all_cmds emits_clean (leave auth).
Proof. unfold leave. walk_program. Qed.

Lemma destroy_clean auth : all_cmds emits_clean (destroy auth).
Proof. unfold destroy. walk_program. Qed.

Lemma postMessage_clean a b c d auth : all_cmds emits_clean (postMessage a b c d auth).
Proof. unfold postMessage. walk_program. Qed.

Lemma listMessages_clean auth : all_cmds emits_clean (listMessages auth).
Proof. unfold listMessages. walk_program. Qed.

Lemma middleware_clean a b c d : all_cmds emits_clean (middleware a b c d).
Proof. unfold middleware. walk_program. Qed.

(** X13.  No session token is ever published: in every state the
    application can be in, each [chat.message] event on record carries a
    message without token, and the other events have no token field. *)
Theorem tokens_never_published (s : State) (channel : string) (m : Message) :
  reachable s → (channel, ChatMessage m) ∈ emitted s → m_token m = None.
Proof.
  intros Hs Hin. cut (events_clean s); [intros Hclean; by apply (Hclean _ _ Hin)|].
  clear Hin. induction Hs as [|q s Hs IH|dt s Hdt Hs IH].
  - by intros ch ev ?%elem_of_nil.
  - destruct q; unfold serve;
      (apply (run_all_cmds emits_clean events_clean events_clean_exec); [|done]).
    + apply create_clean.
    + apply join_clean.
    + apply getTtl_clean.
    + apply getUsers_clean.
    + apply leave_clean.
    + apply destroy_clean.
    + apply postMessage_clean.
    + apply listMessages_clean.
    + apply middleware_clean.
  - done.
Qed.

Lemma room_chat_reachable : reachable room_chat.
Proof.
  apply (reach_serve (ReqPost "M2" 7 "bob" "hello" (mkAuth "R" "T2"))).
  apply (reach_serve (ReqPost "M1" 5 "alice" "hi" (mkAuth "R" "T1"))).
  apply (reach_serve (ReqJoin "T2" "R" "bob")).
  apply (reach_serve (ReqCreate "R" "T1" 1000 "private" "alice")).
  apply reach_empty.
Qed.

Lemma tokens_never_published_witness :
  m_token (mkMessage "M2" "bob" "hello" 7 "R" None) = None.
Proof.
  apply (tokens_never_published room_chat "R" _ room_chat_reachable).
  vm_compute. do 2 apply list_elem_of_further. apply list_elem_of_here.
Defined.

Lemma all_expire_put s k e t :
  all_expire s → expire_at e = Some t → t <= clock s + ROOM_TTL_SECONDS →
  all_expire (put_key s k e).
Proof.
  intros Hs He Ht k' e'. unfold put_key. simpl.
  destruct (decide (k = k')) as [<-|Hne].
  - rewrite lookup_insert_eq. intros [= <-]. by exists t.
  - rewrite lookup_insert_ne by done. apply Hs.
Qed.

Lemma all_expire_drop s k : all_expire s → all_expire (drop_key s k).
Proof.
  intros Hs k' e'. unfold drop_key. simpl.
  destruct (decide (k = k')) as [<-|Hne].
  - by rewrite lookup_delete_eq.
  - rewrite lookup_delete_ne by done. apply Hs.
Qed.

Lemma all_expire_exec X (c : cmd X) s :
  only_removes X c → all_expire s → all_expire (exec c s).2.
Proof.
  intros Hc Hs.
  destruct c as [k m|k|k seconds|k|k|k|k m|k|k x|k arg|channel ev];
    simpl in *; try done;
    repeat case_match; simplify_eq; simpl; try done.
  by apply all_expire_drop.
Qed.

Lemma getTtl_removes auth : all_cmds only_removes (getTtl auth).
Proof. unfold getTtl. walk_program. Qed.

Lemma getUsers_removes auth : all_cmds only_removes (getUsers auth).
Proof. unfold getUsers. walk_program. Qed.

Lemma destroy_removes auth : all_cmds only_removes (destroy auth).
Proof. unfold destroy. walk_program. Qed.

Lemma listMessages_removes auth : all_cmds only_removes (listMessages auth).
Proof. unfold listMessages. walk_program. Qed.

Lemma all_expire_create a b c d e s :
  all_expire s → all_expire (run (create a b c d e) s).2.
Proof.
  intros Hs. unfold create. simpl.
  set (m := {| connected := [b] |}).
  assert (∀ ex, all_expire
            (put_key (put_key s (meta_key a) (mkEntry (VHash m) ex)) (meta_key a)
               (mkEntry (VHash m) (Some (clock s + ROOM_TTL_SECONDS))))) as Hput.
  { intros ex. unfold put_key, with_keys. simpl. rewrite insert_insert_eq.
    by apply (all_expire_put s _ _ (clock s + ROOM_TTL_SECONDS)). }
  destruct (lookup_key s (meta_key a)) as [e0|] eqn:Hk.
  - destruct (value e0) eqn:Hv; simpl; try done.
    rewrite lookup_put_eq by exact (lookup_key_alive _ _ _ Hk). simpl. apply Hput.
  - simpl. rewrite lookup_put_eq by done. simpl. apply Hput.
Qed.

Lemma all_expire_join a b c s :
  all_expire s → all_expire (run (join a b c) s).2.
Proof.
  intros Hs. unfold join. simpl.
  destruct (lookup_key s (meta_key b)) as [e0|] eqn:Hk; [|done].
  destruct (value e0) as [m| |] eqn:Hv; simpl; try done.
  destruct (_ && _); simpl; [done|]. rewrite Hk, Hv. simpl.
  destruct (Hs _ _ (lookup_key_raw _ _ _ Hk)) as (t & Ht & Hle).
  by apply (all_expire_put s _ _ t).
Qed.

Lemma all_expire_leave auth s :
  all_expire s → all_expire (run (leave auth) s).2.
Proof.
  intros Hs. unfold leave. simpl.
  destruct (lookup_key s (meta_key (roomId auth))) as [e0|] eqn:Hk; [|done].
  destruct (value e0) as [m| |] eqn:Hv; simpl; try done.
  destruct (_ =? 0); simpl.
  - by do 2 apply all_expire_drop.
  - rewrite Hk, Hv. simpl.
    destruct (Hs _ _ (lookup_key_raw _ _ _ Hk)) as (t & Ht & Hle).
    by apply (all_expire_put s _ _ t).
Qed.

Lemma kept_list s r : rooms_expire s → holds_list s (messages_key r).
Proof.
  intros Hs. unfold holds_list.
  destruct (lookup_key s (messages_key r)) as [e|] eqn:Hk; [|done].
  apply lookup_key_raw in Hk. specialize (Hs _ _ Hk). unfold well_kept in Hs.
  destruct (value e) as [m|l|st]; [|done|].
  - destruct Hs as [[r' Heq] _]. symmetry in Heq. by apply meta_messages_ne in Heq.
  - destruct Hs as [r' Heq]. by apply messages_connected_ne in Heq.
Qed.

Lemma all_expire_postMessage a b c d auth s :
  rooms_expire s → all_expire s → all_expire (run (postMessage a b c d auth) s).2.
Proof.
  intros Hkept Hs.
  destruct (lookup_key s (meta_key (roomId auth))) as [e|] eqn:Hk; last first.
  { by rewrite postMessage_absent. }
  destruct (kept_meta _ _ _ Hkept Hk) as (m & t & Hv & Hexp & Hlo & Hhi).
  rewrite (postMessage_ok s _ _ _ _ _ _ _ Hk Hexp (kept_list _ _ Hkept)). simpl.
  by apply (all_expire_put s _ _ t).
Qed.

Lemma all_expire_middleware a b c d s :
  rooms_expire s → all_expire s → all_expire (run (middleware a b c d) s).2.
Proof.
  intros Hkept Hs. rewrite middleware_steps by done.
  destruct (roomMatch b) as [r|]; [|done].
  destruct (lookup_key s (meta_key r)) as [e|] eqn:Hk; [|done].
  destruct (isBot _); [done|].
  destruct (match d with Some (String _ _ as x) => _ | _ => _ end); [done|].
  case_bool_decide; [done|].
  destruct (kept_meta _ _ _ Hkept Hk) as (m & t & Hv & Hexp & Hlo & Hhi).
  by apply (all_expire_put s _ _ t).
Qed.

Lemma reachable_all_expire s : reachable s → all_expire s.
Proof.
  induction 1 as [|q s Hs IH|dt s Hdt Hs IH].
  - intros k e Hk. simpl in Hk. by rewrite lookup_empty in Hk.
  - pose proof (reachable_rooms_expire _ Hs) as Hkept.
    destruct q; unfold serve.
    + by apply all_expire_create.
    + by apply all_expire_join.
    + apply (run_all_cmds only_removes all_expire all_expire_exec);
        [apply getTtl_removes|done].
    + apply (run_all_cmds only_removes all_expire all_expire_exec);
        [apply getUsers_removes|done].
    + by apply all_expire_leave.
    + apply (run_all_cmds only_removes all_expire all_expire_exec);
        [apply destroy_removes|done].
    + by apply all_expire_postMessage.
    + apply (run_all_cmds only_removes all_expire all_expire_exec);
        [apply listMessages_removes|done].
    + by apply all_expire_middleware.
  - intros k e Hk. destruct (IH k e Hk) as (t & Ht & Hle).
    exists t. split; [done|]. simpl. lia.
Qed.

(** X14.  Nothing the application stores is permanent.  In every state it
    can be in, each key that is present, be it a room record, a message log
    or a set of tokens, has between 1 and 600 seconds left to live; so when
    no request is served for 600 seconds, the store holds nothing any more. *)
Theorem store_is_ephemeral (s : State) :
  reachable s →
  (∀ k, is_Some (lookup_key s k) → 0 < ttl_of s k <= ROOM_TTL_SECONDS)
  ∧ (∀ k, lookup_key (tick ROOM_TTL_SECONDS s) k = None).
Proof.
  intros Hs. apply reachable_all_expire in Hs. split.
  - intros k [e Hk]. pose proof (lookup_key_alive _ _ _ Hk) as Hal.
    destruct (Hs _ _ (lookup_key_raw _ _ _ Hk)) as (t & Ht & Hle).
    unfold ttl_of. rewrite Hk, Ht. unfold alive in Hal. rewrite Ht in Hal.
    apply Z.ltb_lt in Hal. lia.
  - intros k. unfold lookup_key. simpl.
    destruct (keys s !! k) as [e|] eqn:Hk; [|done].
    destruct (Hs _ _ Hk) as (t & Ht & Hle). unfold alive. rewrite Ht.
    by destruct (Z.ltb_spec (clock s + ROOM_TTL_SECONDS) t); [lia|].
Qed.

Lemma store_is_ephemeral_witness :
  (∀ k, is_Some (lookup_key room_chat k) → 0 < ttl_of room_chat k <= ROOM_TTL_SECONDS)
  ∧ (∀ k, lookup_key (tick ROOM_TTL_SECONDS room_chat) k = None).
Proof. apply (store_is_ephemeral room_chat). exact room_chat_reachable. Defined.

(** X15.  In every state the application can be in, once the set of a
    room holds two tokens the gate turns away every visitor who is neither a
    bot nor the bearer of one of the two, with room-full and without
    changing the state; the kind of the room, group or private, plays no part. *)
Theorem gate_refuses_when_full (s : State) (new_token pathname r : string)
    (userAgent cookie : option string) :
  reachable s →
  roomMatch pathname = Some r →
  is_Some (lookup_key s (meta_key r)) →
  isBot (default ""%string userAgent) = false →
  (∀ x, cookie = Some x → x ∉ set_at s (connected_key r)) →
  (2 ≤ size (set_at s (connected_key r)))%nat →
  run (middleware new_token pathname userAgent cookie) s
  = (Returned (Redirect "/?error=room-full"), s).
Proof.
  intros Hs Hr [e Hmeta] Hbot Hcookie Hfull. apply reachable_rooms_expire in Hs.
  rewrite middleware_steps, Hr, Hmeta, Hbot by done.
  assert (match cookie with
          | Some (String c rest as existingToken) =>
              bool_decide (existingToken ∈ set_at s (connected_key r))
          | _ => false
          end = false) as ->.
  { destruct cookie as [[|c rest]|]; try done.
    apply bool_decide_eq_false_2. by apply Hcookie. }
  by rewrite bool_decide_eq_true_2.
Qed.

Lemma gate_refuses_when_full_witness :
  run (middleware "K3" "/room/G" (Some "Mozilla/5.0") (Some "T1")) full_group_room
  = (Returned (Redirect "/?error=room-full"), full_group_room).
Proof.
  apply (gate_refuses_when_full full_group_room "K3" "/room/G" "G").
  - do 2 apply reach_serve.
    apply (reach_serve (ReqCreate "G" "T1" 1000 "group" "alice")). apply reach_empty.
  - reflexivity.
  - by eexists.
  - reflexivity.
  - intros x [= <-]. apply (bool_decide_unpack _). vm_compute. exact I.
  - vm_compute. lia.
Defined.

Ltac walk_quiet :=
  repeat first
    [ apply all_ret
    | apply all_throw
    | apply all_do;
      [simpl;
       first [done
             |apply meta_connected_ne
             |apply messages_connected_ne
             |left; apply meta_connected_ne
             |left; apply messages_connected_ne
             |right; by apply Z.gtb_lt]
      |intros ?]
    | match goal with
      | |- all_cmds _ (if ?b then _ else _) => destruct b eqn:?
      | |- all_cmds _ (match ?x with _ => _ end) => destruct x eqn:?
      | |- all_cmds _ (bind (match ?x with _ => _ end) _) => destruct x eqn:?
      | |- all_cmds _ (bind (if ?b then _ else _) _) => destruct b eqn:?
      end ].

Lemma create_quiet r a b c d e : all_cmds (quiet (connected_key r)) (create a b c d e).
Proof. unfold create. walk_quiet. Qed.

Lemma join_quiet r a b c : all_cmds (quiet (connected_key r)) (join a b c).
Proof. unfold join. walk_quiet. Qed.

Lemma getTtl_quiet r auth : all_cmds (quiet (connected_key r)) (getTtl auth).
Proof. unfold getTtl. walk_quiet. Qed.

Lemma getUsers_quiet r auth : all_cmds (quiet (connected_key r)) (getUsers auth).
Proof. unfold getUsers. walk_quiet. Qed.

Lemma leave_quiet r auth : all_cmds (quiet (connected_key r)) (leave auth).
Proof. unfold leave. walk_quiet. Qed.

Lemma destroy_quiet r auth : all_cmds (quiet (connected_key r)) (destroy auth).
Proof. unfold destroy. walk_quiet. Qed.

Lemma postMessage_quiet r a b c d auth :
  all_cmds (quiet (connected_key r)) (postMessage a b c d auth).
Proof. unfold postMessage. walk_quiet. Qed.

Lemma listMessages_quiet r auth : all_cmds (quiet (connected_key r)) (listMessages auth).
Proof. unfold listMessages. walk_quiet. Qed.

Lemma run_quiet k {A} (p : prog A) s :
  all_cmds (quiet k) p → (size (set_at s k) ≤ 2)%nat →
  set_at s k ⊆ set_at (run p s).2 k ∧ (size (set_at (run p s).2 k) ≤ 2)%nat.
Proof.
  revert s. induction p as [a|msg|X c kont IH]; intros s Hp Hsize; [done..|].
  destruct Hp as [Hc Hk]. simpl.
  destruct (exec_quiet k X c s Hc Hsize) as (Hsub & Hsize' & _).
  destruct (exec c s) as [[x|msg] s1]; simpl in *; [|done].
  destruct (IH x s1 (Hk x) Hsize') as [Hsub' Hsize'']. split; [|done].
  by etrans.
Qed.

Lemma all_cmds_any {A} (p : prog A) : all_cmds (λ _ _, True) p.
Proof. induction p as [a|msg|X c k IH]; [done..|]. by split. Qed.

Lemma reachable_sets_bounded s : reachable s → sets_bounded s.
Proof.
  induction 1 as [|q s Hs IH|dt s Hdt Hs IH].
  - intros k e st Hk. simpl in Hk. by rewrite lookup_empty in Hk.
  - destruct q; unfold serve;
      (apply (run_all_cmds (λ _ _, True) sets_bounded);
       [intros; by apply sets_bounded_exec|apply all_cmds_any|done]).
  - done.
Qed.

Lemma set_at_bounded s k : sets_bounded s → (size (set_at s k) ≤ 2)%nat.
Proof.
  intros Hs. unfold set_at.
  destruct (lookup_key s k) as [e|] eqn:Hk; [|rewrite size_empty; lia].
  destruct (value e) as [| |st] eqn:Hv; try (rewrite size_empty; lia).
  apply lookup_key_raw in Hk. by eapply Hs.
Qed.

(** X16.  No request gives a seat back.  In every state the application
    can be in, whatever request is served next, every token of a room's set
    is still in it afterwards: leaving a room or destroying it does not take
    the leaver's token from the set the gate counts, which only its expiry
    empties; and the set never holds more than two tokens. *)
Theorem seats_are_never_freed (s : State) (q : request) (r : string) :
  reachable s →
  set_at s (connected_key r) ⊆ set_at (serve q s) (connected_key r)
  ∧ (size (set_at (serve q s) (connected_key r)) ≤ 2)%nat.
Proof.
  intros Hs.
  pose proof (set_at_bounded s (connected_key r) (reachable_sets_bounded _ Hs)) as Hb.
  destruct q; unfold serve; (apply run_quiet; [|done]).
  - apply create_quiet.
  - apply join_quiet.
  - apply getTtl_quiet.
  - apply getUsers_quiet.
  - apply leave_quiet.
  - apply destroy_quiet.
  - apply postMessage_quiet.
  - apply listMessages_quiet.
  - apply middleware_quiet.
Qed.

Lemma seats_are_never_freed_witness :
  set_at gated_room (connected_key "R")
    ⊆ set_at (serve (ReqLeave (mkAuth "R" "K1")) gated_room) (connected_key "R")
  ∧ (size (set_at (serve (ReqLeave (mkAuth "R" "K1")) gated_room) (connected_key "R"))
     ≤ 2)%nat.
Proof.
  apply (seats_are_never_freed gated_room (ReqLeave (mkAuth "R" "K1")) "R").
  apply (reach_serve (ReqPage "K1" "/room/R" (Some "Mozilla/5.0") None)).
  apply (reach_serve (ReqCreate "R" "T1" 1000 "private" "alice")). apply reach_empty.
Defined.

(** ** Requests served concurrently *)

Lemma keeps_bind Q {A B} (p : prog A) (f : A → prog B) :
  keeps Q p → (∀ a, keeps Q (f a)) → keeps Q (bind p f).
Proof.
  intros Hp Hf. induction p as [a|msg|X c k IH]; simpl in *; [done..|].
  destruct Hp as [Hc Hk]. split; [done|]. intros x Hx. by apply IH, Hk.
Qed.

Lemma spares_keeps Q {A} (p : prog A) : all_cmds spares_rooms p → keeps Q p.
Proof.
  induction p as [a|msg|X c k IH]; [done..|]. intros [Hc Hk]. split.
  - by destruct c.
  - intros x _. by apply IH.
Qed.

Lemma metas_ok_put Q s k e :
  metas_ok Q s → (∀ m, value e = VHash m → Q m) → metas_ok Q (put_key s k e).
Proof.
  intros Hs He k' e' m. unfold put_key. simpl.
  destruct (decide (k = k')) as [<-|Hne].
  - rewrite lookup_insert_eq. intros [= <-]. apply He.
  - rewrite lookup_insert_ne by done. apply Hs.
Qed.

Lemma metas_ok_drop Q s k : metas_ok Q s → metas_ok Q (drop_key s k).
Proof.
  intros Hs k' e' m. unfold drop_key. simpl.
  destruct (decide (k = k')) as [<-|Hne].
  - by rewrite lookup_delete_eq.
  - rewrite lookup_delete_ne by done. apply Hs.
Qed.

Lemma metas_ok_exec Q X (c : cmd X) s :
  metas_ok Q s → writes_ok Q c →
  metas_ok Q (exec c s).2 ∧ ∀ x, (exec c s).1 = Returned x → reply_ok Q c x.
Proof.
  intros Hs Hc.
  destruct c as [k m|k|k seconds|k|k|k|k m|k|k x|k arg|channel ev];
    simpl in *; (split; [|try done]);
    unfold admission_script, scard, sadd;
    repeat case_match; simplify_eq; simpl; try done;
    try (by apply metas_ok_drop);
    try (apply metas_ok_put; [done|]; simpl; intros; by simplify_eq).
  - intros x [= <-] m' [= <-].
    match goal with H : lookup_key _ _ = Some _ |- _ =>
      apply lookup_key_raw in H; by eapply Hs end.
  - by intros x [= <-] m'.
  - apply metas_ok_put; [done|]. simpl. intros m' Hm'.
    match goal with H : lookup_key _ _ = Some _ |- _ =>
      apply lookup_key_raw in H; by eapply Hs end.
Qed.

Lemma filter_from_length {A} (f : A → Z → bool) (l : list A) i :
  (length (filter_from f l i) ≤ length l)%nat.
Proof.
  revert i. induction l as [|x l IH]; intros i; simpl; [done|].
  specialize (IH (i + 1)). destruct (f x i); simpl; lia.
Qed.

Lemma create_keeps a b c d e : keeps private_bound (create a b c d e).
Proof.
  unfold create. simpl. split; [|done]. intros _. simpl. lia.
Qed.

Lemma join_keeps a b c : keeps private_bound (join a b c).
Proof.
  unfold join. simpl. split; [done|]. intros [m|] Hm; [|done].
  specialize (Hm m eq_refl).
  destruct (String.eqb_spec (type m) "private") as [Ht|Ht]; simpl.
  - unfold MAX_PRIVATE_USERS. rewrite Z.geb_leb.
    destruct (Z.leb_spec 2 (Z.of_nat (length (users m)))); simpl; [done|].
    split; [|done]. intros _. simpl. rewrite length_app. simpl. lia.
  - split; [|done]. intros Hp. simpl in Hp. done.
Qed.

Lemma leave_keeps auth : keeps private_bound (leave auth).
Proof.
  unfold leave. simpl. split; [done|]. intros [m|] Hm; [|done].
  specialize (Hm m eq_refl).
  destruct (_ =? 0); simpl; [done|]. split; [|done].
  intros Hp. simpl in *. specialize (Hm Hp).
  etrans; [apply filter_from_length|done].
Qed.

Lemma handle_keeps q : keeps private_bound (handle q).
Proof.
  destruct q; unfold handle; (apply keeps_bind; [|done]).
  - apply create_keeps.
  - apply join_keeps.
  - apply spares_keeps, getTtl_spares.
  - apply spares_keeps, getUsers_spares.
  - apply leave_keeps.
  - apply spares_keeps, destroy_spares.
  - apply spares_keeps, postMessage_spares.
  - apply spares_keeps, listMessages_spares.
  - apply spares_keeps, middleware_spares.
Qed.

Lemma act_keeps Q {A} (sys : System A) a :
  Forall (keeps Q) (pool sys) → metas_ok Q (store sys) →
  Forall (keeps Q) (pool (act sys a)) ∧ metas_ok Q (store (act sys a)).
Proof.
  intros Hpool Hs. destruct a as [i|dt]; simpl; [|done].
  destruct (pool sys !! i) as [p|] eqn:Hi; [|done].
  pose proof (proj1 (Forall_lookup _ _) Hpool _ _ Hi) as Hp.
  destruct p as [x|msg|X c k]; simpl.
  - split; [by apply Forall_insert|done].
  - split; [by apply Forall_insert|done].
  - destruct Hp as [Hc Hk].
    destruct (metas_ok_exec Q X c (store sys) Hs Hc) as [Hs' Hreply].
    split; [|done]. apply Forall_insert; [done|].
    destruct (exec c (store sys)).1 as [x|msg] eqn:Hx; [|done].
    by apply Hk, Hreply.
Qed.

Lemma sched_keeps Q {A} (acts : list action) (sys : System A) :
  Forall (keeps Q) (pool sys) → metas_ok Q (store sys) →
  metas_ok Q (store (sched acts sys)).
Proof.
  revert sys. induction acts as [|a acts IH]; intros sys Hpool Hs; [done|].
  simpl. destruct (act_keeps Q sys a Hpool Hs). by apply IH.
Qed.

(** X17.  However the requests of the application interleave, command by
    command and with any time passing in between, a private room never
    lists more than two names: the store that any number of concurrent
    requests leave behind, started from the empty store, holds no private
    room record with three names or more. *)
Theorem private_room_lists_two_names (reqs : list request) (acts : list action)
    (r : string) (e : entry) (m : Meta) :
  lookup_key (store (sched acts (mkSystem (map handle reqs) empty_state [])))
    (meta_key r) = Some e →
  value e = VHash m → type m = "private"%string →
  (length (users m) ≤ 2)%nat.
Proof.
  intros Hk Hv Ht. apply lookup_key_raw in Hk.
  assert (metas_ok private_bound
            (store (sched acts (mkSystem (map handle reqs) empty_state []))))
    as Hok.
  { apply sched_keeps; simpl.
    - apply Forall_forall. intros p [q [-> _]]%list_elem_of_fmap. apply handle_keeps.
    - intros k e' m' Hk'. simpl in Hk'. by rewrite lookup_empty in Hk'. }
  by apply (Hok _ _ _ Hk Hv).
Qed.

Lemma run_bind {A B} (p : prog A) (f : A → prog B) s :
  run (bind p f) s
  = match run p s with
    | (Returned a, s') => run (f a) s'
    | (Thrown msg, s') => (Thrown msg, s')
    end.
Proof.
  revert s. induction p as [a|msg|X c k IH]; intros s; simpl; [done..|].
  destruct (exec c s) as [[x|msg] s1]; [apply IH|done].
Qed.

Lemma handle_serve q s : (run (handle q) s).2 = serve q s.
Proof.
  destruct q; unfold handle, serve; rewrite run_bind;
    by destruct (run _ s) as [[x|msg] s1].
Qed.

Lemma private_room_lists_two_names_witness :
  let reqs := [ReqCreate "R" "T1" 1000 "private" "alice";
               ReqJoin "T2" "R" "bob"; ReqJoin "T3" "R" "carol"] in
  let acts := [Step 0; Step 0; Step 1; Step 2; Step 1; Step 2; Step 1; Step 2]%nat in
  lookup_key (store (sched acts (mkSystem (map handle reqs) empty_state [])))
    (meta_key "R")
  = Some (mkEntry (VHash {| connected := ["T1"; "T3"]; createdAt := 1000;
                            type := "private"; users := ["alice"; "carol"] |})
                  (Some 600))
  ∧ (length ["alice"; "carol"]%string ≤ 2)%nat.
Proof.
  intros reqs acts. split; [reflexivity|].
  apply (private_room_lists_two_names reqs acts "R"
           (mkEntry (VHash {| connected := ["T1"; "T3"]; createdAt := 1000;
                              type := "private"; users := ["alice"; "carol"] |})
                    (Some 600))
           {| connected := ["T1"; "T3"]; createdAt := 1000;
              type := "private"; users := ["alice"; "carol"] |});
    reflexivity.
Defined.

(** X18.  The capacity check of [join] and its write are two commands of
    the store.  When two joins of a room that has space left read the record
    before either writes it, both are admitted and both get a token, and the
    record ends up as the second writer leaves it: it lists the second
    joiner's name and token after the old ones, and neither the name nor the
    token of the first. *)
Theorem concurrent_joins_overwrite (s : State) (r ta tb a b : string)
    (e : entry) (m : Meta) :
  lookup_key s (meta_key r) = Some e → value e = VHash m →
  ¬ (type m = "private"%string ∧ (2 ≤ length (users m))%nat) →
  let sys' :=
    sched [Step 0; Step 1; Step 0; Step 1; Step 0; Step 1]%nat
      (mkSystem [handle (ReqJoin ta r a); handle (ReqJoin tb r b)] s []) in
  pool sys' = [ Ret (JoinReplied (Joined (mkRoomReply r ta (type m))));
                Ret (JoinReplied (Joined (mkRoomReply r tb (type m)))) ]
  ∧ lookup_key (store sys') (meta_key r)
    = Some (mkEntry (VHash {| connected := connected m ++ [tb];
                              createdAt := createdAt m;
                              type := type m;
                              users := users m ++ [b] |})
                    (expire_at e))
  ∧ emitted (store sys')
    = emitted s ++ [(r, ChatUserJoined a); (r, ChatUserJoined b)].
Proof.
  intros Hk Hv Hroom.
  assert (String.eqb (type m) "private"
          && (Z.of_nat (length (users m)) >=? MAX_PRIVATE_USERS) = false) as Hcond.
  { apply andb_false_iff. unfold MAX_PRIVATE_USERS. rewrite Z.geb_leb.
    destruct (String.eqb_spec (type m) "private"); [right|by left].
    apply Z.leb_gt. destruct (decide (2 ≤ length (users m))%nat); [|lia].
    exfalso. by apply Hroom. }
  pose proof (lookup_key_alive _ _ _ Hk) as Hal.
  assert (∀ m1, alive (clock s) (mkEntry (VHash m1) (expire_at e)) = true) as Hal'
    by done.
  unfold sched, handle. simpl.
  repeat first
    [ rewrite Hk | rewrite Hv | rewrite Hcond
    | rewrite lookup_put_eq by apply Hal'
    | progress simpl ].
  split; [done|]. split.
  - unfold lookup_key, put_key, publish, with_keys. simpl.
    rewrite lookup_insert_eq. by rewrite Hal'.
  - unfold put_key, publish, with_keys. simpl. by rewrite <- app_assoc.
Qed.

Lemma concurrent_joins_overwrite_witness :
  let sys' :=
    sched [Step 0; Step 1; Step 0; Step 1; Step 0; Step 1]%nat
      (mkSystem [handle (ReqJoin "T2" "R" "bob"); handle (ReqJoin "T3" "R" "carol")]
         room_one []) in
  pool sys' = [ Ret (JoinReplied (Joined (mkRoomReply "R" "T2" "private")));
                Ret (JoinReplied (Joined (mkRoomReply "R" "T3" "private"))) ]
  ∧ lookup_key (store sys') (meta_key "R")
    = Some (mkEntry (VHash {| connected := ["T1"] ++ ["T3"];
                              createdAt := 1000;
                              type := "private";
                              users := ["alice"] ++ ["carol"] |})
                    (Some 600))
  ∧ emitted (store sys')
    = emitted room_one ++ [("R", ChatUserJoined "bob"); ("R", ChatUserJoined "carol")].
Proof.
  apply (concurrent_joins_overwrite room_one "R" "T2" "T3" "bob" "carol" _ meta_one
           room_one_meta eq_refl).
  intros [_ Hl]. simpl in Hl. lia.
Defined.

(** X19.  A [join] that reads the record of a room with space left just
    before the room expires, and writes after, brings the room back without
    any expiry: the record then lists the old names and the joiner's, the
    store reports no time to live for it, and it is still there however much
    time passes. *)
Theorem join_across_expiry (s : State) (new_token r name : string)
    (e : entry) (m : Meta) (t : Z) (dt later : nat) :
  lookup_key s (meta_key r) = Some e → value e = VHash m →
  expire_at e = Some t → t <= clock s + Z.of_nat dt →
  ¬ (type m = "private"%string ∧ (2 ≤ length (users m))%nat) →
  let sys' :=
    sched [Step 0; Tick dt; Step 0; Step 0]%nat
      (mkSystem [handle (ReqJoin new_token r name)] s []) in
  pool sys' = [Ret (JoinReplied (Joined (mkRoomReply r new_token (type m))))]
  ∧ lookup_key (tick (Z.of_nat later) (store sys')) (meta_key r)
    = Some (mkEntry (VHash {| connected := connected m ++ [new_token];
                              createdAt := createdAt m;
                              type := type m;
                              users := users m ++ [name] |})
                    None)
  ∧ ttl_of (tick (Z.of_nat later) (store sys')) (meta_key r) = -1.
Proof.
  intros Hk Hv Hexp Hdt Hroom.
  assert (String.eqb (type m) "private"
          && (Z.of_nat (length (users m)) >=? MAX_PRIVATE_USERS) = false) as Hcond.
  { apply andb_false_iff. unfold MAX_PRIVATE_USERS. rewrite Z.geb_leb.
    destruct (String.eqb_spec (type m) "private"); [right|by left].
    apply Z.leb_gt. destruct (decide (2 ≤ length (users m))%nat); [|lia].
    exfalso. by apply Hroom. }
  assert (lookup_key (tick (Z.of_nat dt) s) (meta_key r) = None) as Hgone.
  { apply lookup_key_raw in Hk. unfold lookup_key. simpl. rewrite Hk.
    unfold alive. rewrite Hexp. simpl.
    by destruct (Z.ltb_spec (clock s + Z.of_nat dt) t); [lia|]. }
  unfold sched, handle. simpl.
  repeat first
    [ rewrite Hk | rewrite Hv | rewrite Hcond | rewrite Hgone | progress simpl ].
  split; [done|].
  assert (∀ st : State,
    keys st !! meta_key r
    = Some (mkEntry (VHash {| connected := connected m ++ [new_token];
                              createdAt := createdAt m;
                              type := type m;
                              users := users m ++ [name] |}) None) →
    lookup_key st (meta_key r)
    = Some (mkEntry (VHash {| connected := connected m ++ [new_token];
                              createdAt := createdAt m;
                              type := type m;
                              users := users m ++ [name] |}) None)) as Hlive.
  { intros st Hst. unfold lookup_key. by rewrite Hst. }
  split.
  - apply Hlive. unfold tick, publish, put_key, with_keys. simpl.
    by rewrite lookup_insert_eq.
  - unfold ttl_of. rewrite Hlive; [done|].
    unfold tick, publish, put_key, with_keys. simpl. by rewrite lookup_insert_eq.
Qed.

Lemma join_across_expiry_witness :
  let sys' :=
    sched [Step 0; Tick 600; Step 0; Step 0]%nat
      (mkSystem [handle (ReqJoin "T2" "R" "bob")] room_one []) in
  pool sys' = [Ret (JoinReplied (Joined (mkRoomReply "R" "T2" "private")))]
  ∧ lookup_key (tick (Z.of_nat 1000) (store sys')) (meta_key "R")
    = Some (mkEntry (VHash {| connected := ["T1"] ++ ["T2"];
                              createdAt := 1000;
                              type := "private";
                              users := ["alice"] ++ ["bob"] |})
                    None)
  ∧ ttl_of (tick (Z.of_nat 1000) (store sys')) (meta_key "R") = -1.
Proof.
  apply (join_across_expiry room_one "T2" "R" "bob" _ meta_one 600 600 1000
           room_one_meta eq_refl eq_refl).
  - vm_compute. discriminate.
  - intros [_ Hl]. simpl in Hl. lia.
Defined.

(** X20.  On a room whose record has no expiry, [postMessage] returns
    normally and publishes the message, but the log is gone afterwards with
    the message in it: the time to live it reads is -1, and setting that as
    the log's expiry removes the log. *)
Theorem postMessage_without_expiry (s : State) (new_id : string) (now_ms : Z)
    (sender text : string) (auth : Auth) (e : entry) :
  lookup_key s (meta_key (roomId auth)) = Some e → expire_at e = None →
  holds_list s (messages_key (roomId auth)) →
  ∃ s',
    run (postMessage new_id now_ms sender text auth) s = (Returned tt, s')
    ∧ lookup_key s' (messages_key (roomId auth)) = None
    ∧ emitted s'
      = emitted s ++ [(roomId auth,
                       ChatMessage (built_message new_id now_ms sender text auth None))]
    ∧ lookup_key s' (meta_key (roomId auth)) = Some e.
Proof.
  intros Hk Hexp Hlist.
  assert (meta_key (roomId auth) ≠ messages_key (roomId auth)) as Hne
    by apply meta_messages_ne.
  assert (ttl_of s (meta_key (roomId auth)) = -1) as Httl
    by (unfold ttl_of; by rewrite Hk, Hexp).
  unfold postMessage, holds_list, built_message in *. simpl. rewrite Hk. simpl.
  destruct (lookup_key s (messages_key (roomId auth))) as [e'|] eqn:Hm.
  - destruct (value e') as [|l|] eqn:Hv'; try done. simpl.
    rewrite ttl_publish, ttl_put_ne, Httl, lookup_publish by done.
    rewrite lookup_put_eq by exact (lookup_key_alive _ _ _ Hm). simpl.
    eexists. split; [done|]. split; [apply lookup_drop_eq|]. split; [done|].
    rewrite lookup_drop_ne, lookup_publish, lookup_put_ne by done. done.
  - simpl. rewrite ttl_publish, ttl_put_ne, Httl, lookup_publish by done.
    rewrite lookup_put_eq by done. simpl.
    eexists. split; [done|]. split; [apply lookup_drop_eq|]. split; [done|].
    rewrite lookup_drop_ne, lookup_publish, lookup_put_ne by done. done.
Qed.

Lemma postMessage_without_expiry_witness :
  ∃ s',
    run (postMessage "M1" 5 "bob" "hi" (mkAuth "R" "T2")) revived_room
      = (Returned tt, s')
    ∧ lookup_key s' (messages_key "R") = None
    ∧ emitted s'
      = emitted revived_room
        ++ [("R", ChatMessage (built_message "M1" 5 "bob" "hi" (mkAuth "R" "T2") None))]
    ∧ lookup_key s' (meta_key "R")
      = Some (mkEntry (VHash meta_two) None).
Proof.
  apply (postMessage_without_expiry revived_room "M1" 5 "bob" "hi" (mkAuth "R" "T2")
           (mkEntry (VHash meta_two) None)).
  - reflexivity.
  - reflexivity.
  - exact I.
Defined.

(** X21.  The countdown of the page keeps step with the store.  Whatever
    the state, when [getTtl] returns [n] seconds now, then [k] seconds later,
    no request having been served meanwhile, it returns what [k] ticks of
    the page's timer make of [n]. *)
Theorem countdown_matches_getTtl (s : State) (auth : Auth) (k : nat) :
  ∃ n n',
    run (getTtl auth) s = (Returned n, s)
    ∧ run (getTtl auth) (tick (Z.of_nat k) s) = (Returned n', tick (Z.of_nat k) s)
    ∧ countdown k (Some n) = Some n'.
Proof.
  unfold getTtl. simpl. eexists _, _. split; [done|]. split; [done|].
  assert (∀ n, 0 <= n → countdown k (Some n) = Some (Z.max 0 (n - Z.of_nat k)))
    as Hdown.
  { clear. induction k as [|k IH]; intros n Hn; simpl.
    - f_equal. lia.
    - destruct (Z.leb_spec n 1); rewrite IH by lia; f_equal; lia. }
  assert (ttl_of s (meta_key (roomId auth)) <= 0
          ∧ ttl_of (tick (Z.of_nat k) s) (meta_key (roomId auth)) <= 0
          ∨ 0 < ttl_of s (meta_key (roomId auth))
            ∧ (ttl_of (tick (Z.of_nat k) s) (meta_key (roomId auth))
               = ttl_of s (meta_key (roomId auth)) - Z.of_nat k
               ∧ 0 < ttl_of s (meta_key (roomId auth)) - Z.of_nat k
               ∨ ttl_of (tick (Z.of_nat k) s) (meta_key (roomId auth)) <= 0
                 ∧ ttl_of s (meta_key (roomId auth)) - Z.of_nat k <= 0)) as Hcases.
  { unfold ttl_of, lookup_key, alive. simpl.
    destruct (keys s !! meta_key (roomId auth)) as [e|]; [|left; lia].
    destruct (expire_at e) as [t|] eqn:Hexp; [|left; rewrite ?Hexp; lia].
    destruct (Z.ltb_spec (clock s) t), (Z.ltb_spec (clock s + Z.of_nat k) t);
      simpl; rewrite ?Hexp; lia. }
  destruct (Z.gtb_spec (ttl_of s (meta_key (roomId auth))) 0),
    (Z.gtb_spec (ttl_of (tick (Z.of_nat k) s) (meta_key (roomId auth))) 0);
    rewrite Hdown by lia; f_equal; lia.
Qed.
